(** * pkg/image/extract.go: selective extraction of files from image layers

    A shallow embedding of [Extract] and a verification of the properties
    stated about it.  The image, the destination file system and the tar
    writer are collaborators of [Extract]; they are modelled as explicit
    inputs (an image value, a creation oracle and a script of write
    outcomes), and everything [Extract] does to them is threaded through
    an explicit state. *)

From Stdlib Require Import ZArith Ascii String Strings.Byte List Lia.
From stdpp Require Import gmap strings list.

Local Open Scope string_scope.
Local Open Scope Z_scope.

(** ** Library functions used by [Extract] *)

Module strings.

(** [strings.TrimPrefix(s, prefix)]: [s] without the leading [prefix];
    [s] itself when it does not start with [prefix]. *)
Definition TrimPrefix (s prefix : string) : string :=
  if String.prefix prefix s
  then String.substring (String.length prefix)
                        (String.length s - String.length prefix) s
  else s.

End strings.

Module filepath.

Definition is_slash (c : ascii) : bool := Ascii.eqb c "/".
Definition is_dot (c : ascii) : bool := Ascii.eqb c ".".

(** Does the unread input end here or continue with a separator? *)
Definition at_elem_end (s : string) : bool :=
  match s with
  | EmptyString => true
  | String c _ => is_slash c
  end.

(** The ".." case of [Clean]: [out.w--] and then
    [for out.w > dotdot && out.index(out.w) != '/' { out.w-- }].
    The output buffer is kept reversed, its head is the last byte
    written; [last] is the byte at the index [out.w]. *)
Fixpoint backtrack_loop (dotdot : nat) (last : ascii) (out : list ascii)
  : list ascii :=
  if (dotdot <? List.length out)%nat && negb (is_slash last)
  then match out with
       | [] => []
       | c :: out' => backtrack_loop dotdot c out'
       end
  else out.

Definition backtrack (dotdot : nat) (out : list ascii) : list ascii :=
  match out with
  | [] => []
  | c :: out' => backtrack_loop dotdot c out'
  end.

(** The main loop of [Clean], reading the path from the left.  [inelem]
    is true inside the copy loop of the "real path element" case; at an
    element boundary the cases are those of the [switch]. *)
Fixpoint clean_loop (rooted : bool) (inelem : bool) (path : string)
         (out : list ascii) (dotdot : nat) {struct path} : list ascii :=
  match path with
  | EmptyString => out
  | String c r =>
      if inelem then
        if is_slash c then clean_loop rooted false r out dotdot
        else clean_loop rooted true r (c :: out) dotdot
      else if is_slash c then
        (* empty path element *)
        clean_loop rooted false r out dotdot
      else if is_dot c && at_elem_end r then
        (* . element *)
        clean_loop rooted false r out dotdot
      else
        match r with
        | String c' r' =>
            if is_dot c && is_dot c' && at_elem_end r' then
              (* .. element: remove to last separator *)
              if (dotdot <? List.length out)%nat then
                clean_loop rooted false r' (backtrack dotdot out) dotdot
              else if negb rooted then
                let out1 :=
                  if (0 <? List.length out)%nat then "/"%char :: out
                  else out in
                let out2 := "."%char :: "."%char :: out1 in
                clean_loop rooted false r' out2 (List.length out2)
              else clean_loop rooted false r' out dotdot
            else
              let out1 :=
                if (rooted && negb (List.length out =? 1)%nat)
                   || (negb rooted && negb (List.length out =? 0)%nat)
                then "/"%char :: out else out in
              clean_loop rooted true r (c :: out1) dotdot
        | EmptyString =>
            let out1 :=
              if (rooted && negb (List.length out =? 1)%nat)
                 || (negb rooted && negb (List.length out =? 0)%nat)
              then "/"%char :: out else out in
            clean_loop rooted true r (c :: out1) dotdot
        end
  end.

(** [filepath.Clean] of the Go standard library on a slash-separated
    (Unix) path, after the algorithm of [path.Clean]: the shortest path
    equivalent to [path] by purely lexical processing.  It never returns
    the empty string. *)
Definition Clean (path : string) : string :=
  match path with
  | EmptyString => "."
  | String c _ =>
      let rooted := is_slash c in
      let out :=
        if rooted then clean_loop true false path ["/"%char] 1%nat
        else clean_loop false false path [] 0%nat in
      match out with
      | [] => "."
      | _ => string_of_list_ascii (rev out)
      end
  end.

End filepath.

(** ** Data model *)

(** Go's [error] values are represented by their message. *)
Definition error := string.

(** A Go result pair [(value, err)] of which exactly one part is set. *)
Inductive res (A : Type) : Type :=
| Ok (a : A)
| Err (e : error).
Arguments Ok {A} a.
Arguments Err {A} e.

(** [v1alpha1.FileLocation] *)
Record FileLocation := { From : string; To : string }.

(** [v1alpha1.PluginPlatform]; [Extract] reads its [Files] only. *)
Record PluginPlatform := { Files : list FileLocation }.

Module tar.

(** Type flags of [archive/tar] are bytes. *)
Definition TypeReg : ascii := "0".
Definition TypeDir : ascii := "5".

(** The fields of [tar.Header] that [Extract] reads or writes; mode,
    ownership and times travel with the header unchanged. *)
Record Header := { Typeflag : ascii; Name : string; Size : Z }.

Definition set_Name (h : Header) (n : string) : Header :=
  {| Typeflag := Typeflag h; Name := n; Size := Size h |}.

(** One decoded unit of a layer: what [tarReader.Next] returns and the
    bytes that reading [tarReader] then delivers. *)
Record Entry := { header : Header; content : list byte }.

(** What one write on the [tar.Writer] does.  [WriteErr n] is a failed
    call; for [io.Copy], [n] bytes were moved before it failed. *)
Inductive WriteOutcome := WriteOk | WriteErr (n : nat).

(** The [tar.Writer] over the destination: the members written so far,
    oldest first, and the outcomes of the calls still to come (every
    call after the end of the script succeeds). *)
Record Writer := {
  archive : list (Header * list byte);
  script : list WriteOutcome
}.

Definition next_outcome (w : Writer) : WriteOutcome * list WriteOutcome :=
  match script w with
  | [] => (WriteOk, [])
  | o :: s => (o, s)
  end.

(** [tw.WriteHeader(hdr)]: the new writer and whether the call succeeded. *)
Definition WriteHeader (w : Writer) (hdr : Header) : Writer * bool :=
  match next_outcome w with
  | (WriteOk, s) => ({| archive := (archive w ++ [(hdr, [])])%list; script := s |}, true)
  | (WriteErr _, s) => ({| archive := archive w; script := s |}, false)
  end.

(** Bytes written after a header belong to the last member. *)
Fixpoint append_body (a : list (Header * list byte)) (b : list byte)
  : list (Header * list byte) :=
  match a with
  | [] => []
  | [(h, c)] => [(h, (c ++ b)%list)]
  | m :: a' => m :: append_body a' b
  end.

(** [io.Copy(tw, tarReader)]: moves what is left of the current entry
    to the writer.  Returns the writer, what is still unread of the
    entry, and whether the call succeeded. *)
Definition Copy (w : Writer) (unread : list byte) : Writer * list byte * bool :=
  match next_outcome w with
  | (WriteOk, s) =>
      ({| archive := append_body (archive w) unread; script := s |}, [], true)
  | (WriteErr n, s) =>
      ({| archive := append_body (archive w) (take n unread); script := s |},
       drop n unread, false)
  end.

End tar.

(** A layer's uncompressed stream as the tar reader sees it: the entries
    that decode, then either [io.EOF] ([trailer = None]) or a decoding
    error. *)
Record TarStream := { entries : list tar.Entry; trailer : option error }.

(** [v1.Layer]: [layer.Uncompressed()] *)
Record Layer := { Uncompressed : res TarStream }.

(** [v1.Image]: [img.Layers()], index 0 is the oldest layer. *)
Record Image := { Layers : res (list Layer) }.

(** What the run depends on besides its arguments: [os.Create] (the error
    it returns for a path, if any) and the outcomes of the writes. *)
Record Env := {
  os_Create : string -> option error;
  faults : list tar.WriteOutcome
}.

(** Accesses made by [Extract], recorded in the order they happen. *)
Inductive Event :=
| EvOpen (i : nat)          (* layers[i].Uncompressed() returned a reader *)
| EvOpenErr (i : nat)       (* layers[i].Uncompressed() returned an error *)
| EvNextErr (i : nat)       (* tarReader.Next() failed in layer i *)
| EvClose (i : nat)         (* layerReader.Close() of layer i *)
| EvWriteErr (from : string). (* WriteHeader or io.Copy failed for a target *)

(** The local variables of [Extract] during the walk. *)
Record State := {
  processedTargets : gset string;
  tw : tar.Writer;
  foundLen : nat;
  trace : list Event
}.

Definition log (ev : Event) (st : State) : State :=
  {| processedTargets := processedTargets st; tw := tw st;
     foundLen := foundLen st; trace := (trace st ++ [ev])%list |}.

Definition mark (from : string) (st : State) : State :=
  {| processedTargets := {[from]} ∪ processedTargets st; tw := tw st;
     foundLen := foundLen st; trace := trace st |}.

Definition set_tw (w : tar.Writer) (st : State) : State :=
  {| processedTargets := processedTargets st; tw := w;
     foundLen := foundLen st; trace := trace st |}.

Definition incr_foundLen (st : State) : State :=
  {| processedTargets := processedTargets st; tw := tw st;
     foundLen := S (foundLen st); trace := trace st |}.

(** ** The walk *)

(** Lines 137-151: [for _, target := range platform.Files].  [unread] is
    what is left to read of the current entry.  A [continue] goes on with
    the next target, [break] leaves the loop. *)
Fixpoint scan_targets (targets : list FileLocation) (hdr : tar.Header)
         (unread : list byte) (st : State) : State :=
  match targets with
  | [] => st
  | target :: targets' =>
      if String.eqb (tar.Name hdr) (strings.TrimPrefix (From target) "/") then
        let st1 := mark (From target) st in
        match tar.WriteHeader (tw st1) hdr with
        | (w1, false) =>
            scan_targets targets' hdr unread
                         (log (EvWriteErr (From target)) (set_tw w1 st1))
        | (w1, true) =>
            match tar.Copy w1 unread with
            | (w2, unread', false) =>
                scan_targets targets' hdr unread'
                             (log (EvWriteErr (From target)) (set_tw w2 st1))
            | (w2, _, true) => incr_foundLen (set_tw w2 st1)
            end
        end
      else scan_targets targets' hdr unread st
  end.

(** Lines 102-155: the loop over the entries of layer [i].  The result is
    the state at the end of the loop and the error of line 109, if any. *)
Fixpoint read_entries (files : list FileLocation) (i : nat)
         (es : list tar.Entry) (trailer : option error) (st : State)
  : State * option error :=
  match es with
  | [] =>
      match trailer with
      | None => (st, None)
      | Some e =>
          (log (EvClose i) (log (EvNextErr i) st), Some ("reading tar: " ++ e)%string)
      end
  | en :: es' =>
      let hdr := tar.header en in
      if Ascii.eqb (tar.Typeflag hdr) tar.TypeDir then
        read_entries files i es' trailer st
      else if (tar.Size hdr =? 0)%Z then
        read_entries files i es' trailer st
      else
        let hdr := tar.set_Name hdr (filepath.Clean (tar.Name hdr)) in
        if (String.length (tar.Name hdr) =? 0)%nat then
          read_entries files i es' trailer st
        else if decide (tar.Name hdr ∈ processedTargets st) then
          read_entries files i es' trailer st
        else
          let st' := scan_targets files hdr (tar.content en) st in
          if (foundLen st' =? List.length files)%nat then (st', None)
          else read_entries files i es' trailer st'
  end.

(** Lines 91-157: [for i := len(layers) - 1; i >= 0; i--], with [n = i + 1]. *)
Fixpoint walk_layers (files : list FileLocation) (layers : list Layer)
         (n : nat) (st : State) : State * option error :=
  match n with
  | O => (st, None)
  | S i =>
      if (foundLen st =? List.length files)%nat then (st, None)
      else
        match layers !! i with
        | None => (st, None) (* not reached: i < len(layers) *)
        | Some layer =>
            match Uncompressed layer with
            | Err e =>
                (log (EvOpenErr i) st, Some ("reading layer contents: " ++ e)%string)
            | Ok stream =>
                match read_entries files i (entries stream) (trailer stream)
                                   (log (EvOpen i) st) with
                | (st', Some e) => (st', Some e)
                | (st', None) => walk_layers files layers i (log (EvClose i) st')
                end
            end
        end
  end.

(** Lines 159-164: the files whose [From] is in [processedTargets]. *)
Definition report (files : list FileLocation) (processed : gset string)
  : list FileLocation :=
  fold_left (fun fileLocation f =>
               if decide (From f ∈ processed) then (fileLocation ++ [f])%list
               else fileLocation)
            files [].

(** What a call of [Extract] leaves behind: the returned pair, the state
    of the walk when it returned ([None] when the destination was never
    created), of which [tar.archive] is the content of the destination. *)
Record Run := {
  ret_files : list FileLocation;
  ret_err : option error;
  final : option State
}.

Definition init (env : Env) : State :=
  {| processedTargets := ∅;
     tw := {| tar.archive := []; tar.script := faults env |};
     foundLen := 0;
     trace := [] |}.

(** [Extract]; a nil slice is the empty list. *)
Definition Extract (img : Image) (platform : PluginPlatform)
           (destinationName : string) (env : Env) : Run :=
  match Layers img with
  | Err e =>
      {| ret_files := []; ret_err := Some ("retrieving image layers: " ++ e)%string;
         final := None |}
  | Ok layers =>
      match os_Create env destinationName with
      | Some e => {| ret_files := []; ret_err := Some e; final := None |}
      | None =>
          match walk_layers (Files platform) layers (List.length layers)
                            (init env) with
          | (st, Some e) =>
              {| ret_files := []; ret_err := Some e; final := Some st |}
          | (st, None) =>
              {| ret_files := report (Files platform) (processedTargets st);
                 ret_err := None; final := Some st |}
          end
      end
  end.

(** The destination archive and the accesses of a run. *)
Definition written (r : Run) : list (tar.Header * list byte) :=
  match final r with
  | Some st => tar.archive (tw st)
  | None => []
  end.

Definition accesses (r : Run) : list Event :=
  match final r with
  | Some st => trace st
  | None => []
  end.

(** The headers of the members written so far. *)
Definition headers (w : tar.Writer) : list tar.Header := (tar.archive w).*1.

(** ** Invariants of the walk *)

(** Events that do not end the walk; a failed write is only ever logged
    for a path that is already in [processedTargets]. *)
Definition benign (processed : gset string) (ev : Event) : Prop :=
  match ev with
  | EvOpen _ | EvClose _ => True
  | EvWriteErr from => from ∈ processed
  | EvOpenErr _ | EvNextErr _ => False
  end.

(** [st'] is reached from [st] by steps of the walk that succeed:
    [processedTargets] only grows, the trace is extended by benign
    events, and the archive by members whose headers satisfy [P]. *)
Definition extends (P : tar.Header -> Prop) (st st' : State) : Prop :=
  processedTargets st ⊆ processedTargets st' /\
  (exists evs, trace st' = (trace st ++ evs)%list /\
               Forall (benign (processedTargets st')) evs) /\
  (exists hs, headers (tw st') = (headers (tw st) ++ hs)%list /\ Forall P hs).

(** Headers that pass the filters of lines 112-120. *)
Definition extractable (hdr : tar.Header) : Prop :=
  tar.Typeflag hdr <> tar.TypeDir /\ tar.Size hdr <> 0.

(** How a walk can end in an error: after benign steps, layer [i] failed
    to open, or its stream failed to decode. *)
Definition aborted_at (layers : list Layer) (st0 st' : State) (e : error) : Prop :=
  exists i layer, layers !! i = Some layer /\
    ((exists e0, Uncompressed layer = Err e0 /\
                 st' = log (EvOpenErr i) st0 /\
                 e = ("reading layer contents: " ++ e0)%string) \/
     (exists stream e0, Uncompressed layer = Ok stream /\
                        trailer stream = Some e0 /\
                        st' = log (EvClose i) (log (EvNextErr i) st0) /\
                        e = ("reading tar: " ++ e0)%string)).

(** The header as it is after line 124. *)
Definition cleaned (hdr : tar.Header) : tar.Header :=
  tar.set_Name hdr (filepath.Clean (tar.Name hdr)).

(** Lines 141-147 as one step: the header write and, if it succeeded,
    the copy.  The boolean is false when either of them failed. *)
Definition write_entry (w : tar.Writer) (hdr : tar.Header) (unread : list byte)
  : tar.Writer * list byte * bool :=
  match tar.WriteHeader w hdr with
  | (w1, false) => (w1, unread, false)
  | (w1, true) => tar.Copy w1 unread
  end.

(** The comparison of line 138. *)
Definition matches (hdr : tar.Header) (target : FileLocation) : Prop :=
  tar.Name hdr = strings.TrimPrefix (From target) "/".

(** ** Concrete images and targets *)

(** A regular file entry whose header carries the length of its content. *)
Definition regular (name content : string) : tar.Entry :=
  {| tar.header := {| tar.Typeflag := tar.TypeReg; tar.Name := name;
                      tar.Size := Z.of_nat (String.length content) |};
     tar.content := list_byte_of_string content |}.

Definition directory (name : string) : tar.Entry :=
  {| tar.header := {| tar.Typeflag := tar.TypeDir; tar.Name := name;
                      tar.Size := 0 |};
     tar.content := [] |}.

(** A layer whose stream decodes to the end. *)
Definition layer_of (es : list tar.Entry) : Layer :=
  {| Uncompressed := Ok {| entries := es; trailer := None |} |}.

(** A layer whose stream fails to decode at its first header. *)
Definition corrupt_layer : Layer :=
  {| Uncompressed := Ok {| entries := []; trailer := Some "unexpected EOF" |} |}.

(** The destination can be created and every write succeeds. *)
Definition sound_env : Env := {| os_Create := fun _ => None; faults := [] |}.

(** The first write fails, all later ones succeed. *)
Definition flaky_env : Env :=
  {| os_Create := fun _ => None; faults := [tar.WriteErr 0] |}.

Definition wanted (from : string) : FileLocation := {| From := from; To := from |}.

(** The end-to-end scenario: the bottom layer is [layers[0]]. *)
Definition scenario_image : Image :=
  {| Layers := Ok [ layer_of [regular "usr/bin/foo" "older";
                              regular "usr/bin/bar" "bar"];
                    layer_of [directory "etc/";
                              regular "usr/bin/foo" "foo, the new";
                              regular "usr/bin/bar" ""] ] |}.

Definition scenario_platform : PluginPlatform :=
  {| Files := [wanted "/usr/bin/foo"; wanted "/usr/bin/bar";
               wanted "/usr/bin/missing"] |}.

(** One path in two layers, and a second target that no layer has. *)
Definition overlay_image : Image :=
  {| Layers := Ok [ layer_of [regular "a" "bottom"];
                    layer_of [regular "a" "top"] ] |}.

Definition overlay_platform : PluginPlatform :=
  {| Files := [wanted "/a"; wanted "/b"] |}.

(** One target in the top layer above a layer that does not decode. *)
Definition guarded_image : Image :=
  {| Layers := Ok [ corrupt_layer; layer_of [regular "usr/bin/foo" "foo"] ] |}.



(** The archive member that a complete copy of an entry leaves. *)
Definition member_of (en : tar.Entry) : tar.Header * list byte :=
  (tar.header en, tar.content en).


(** One wanted file in a single layer. *)
Definition oc_image : Image :=
  {| Layers := Ok [layer_of [regular "usr/bin/oc" "oc"]] |}.

(** ** The order of the accesses *)

(** The events of the trace that concern a layer's reader. *)
Definition is_layer_event (ev : Event) : bool :=
  match ev with
  | EvWriteErr _ => false
  | _ => true
  end.

Definition layer_events (tr : list Event) : list Event :=
  List.filter is_layer_event tr.

(** The accesses of a walk that starts at layer [n - 1], goes down and
    reads [k] layers to their end. *)
Fixpoint visited (n k : nat) : list Event :=
  match k, n with
  | S k', S i => EvOpen i :: EvClose i :: visited i k'
  | _, _ => []
  end.

(** ** Where the archive and the result come from *)

(** [en] is an entry of the stream of some layer of the image. *)
Definition provided_by (layers : list Layer) (en : tar.Entry) : Prop :=
  exists i layer stream,
    layers !! i = Some layer /\ Uncompressed layer = Ok stream /\
    en ∈ entries stream.

(** [st'] is reached from [st] by handling entries that satisfy [E]:
    every path added to [processedTargets] is the [From] of a target that
    such an entry matched, and every header added to the archive is the
    cleaned header of such an entry, written for a target that is marked. *)
Definition accounted (files : list FileLocation) (E : tar.Entry -> Prop)
           (st st' : State) : Prop :=
  processedTargets st ⊆ processedTargets st' /\
  (forall p, p ∈ processedTargets st' ->
     p ∈ processedTargets st \/
     exists en t, E en /\ extractable (tar.header en) /\ t ∈ files /\
                  matches (cleaned (tar.header en)) t /\ p = From t) /\
  (exists hs, headers (tw st') = (headers (tw st) ++ hs)%list /\
     Forall (fun h => exists en t,
                 E en /\ extractable (tar.header en) /\
                 h = cleaned (tar.header en) /\ t ∈ files /\
                 matches h t /\ From t ∈ processedTargets st') hs).

(** ** Targets for which the lookup of line 132 works *)

(** Every target is declared without a leading separator, so that the
    key stored at line 139 is the name looked up at line 132, and no
    path is declared twice. *)
Definition plain_targets (files : list FileLocation) : Prop :=
  NoDup (From <$> files) /\
  Forall (fun t => strings.TrimPrefix (From t) "/" = From t) files.

(** The counter does not run ahead of the resolved set, and the archive
    holds each name once, only names that are resolved. *)
Definition tidy (st : State) : Prop :=
  (foundLen st <= size (processedTargets st))%nat /\
  (forall h, h ∈ headers (tw st) -> tar.Name h ∈ processedTargets st) /\
  NoDup (tar.Name <$> headers (tw st)).

(** The targets of [overlay_platform] declared without the separator. *)
Definition plain_overlay_platform : PluginPlatform :=
  {| Files := [wanted "a"; wanted "b"] |}.

(** ** The overlay of the layers *)

(** The entries of a layer's stream; none when it cannot be opened. *)
Definition stream_entries (layer : Layer) : list tar.Entry :=
  match Uncompressed layer with
  | Ok stream => entries stream
  | Err _ => []
  end.

(** All entries of the image in the order of the walk: the top layer
    first, each layer in the order of its stream. *)
Definition walk_order (layers : list Layer) : list tar.Entry :=
  flat_map stream_entries (rev layers).

(** Is [name] the normalized path of a target? *)
Definition wanted_name (files : list FileLocation) (name : string) : bool :=
  existsb (fun t => String.eqb name (strings.TrimPrefix (From t) "/")) files.

(** The overlay rule: of the entries in walk order, the first one for
    each wanted name that is neither a directory nor empty, with its
    cleaned header and its whole content. *)
Fixpoint overlay (files : list FileLocation) (seen : gset string)
         (es : list tar.Entry) : list (tar.Header * list byte) :=
  match es with
  | [] => []
  | en :: es' =>
      if negb (Ascii.eqb (tar.Typeflag (tar.header en)) tar.TypeDir)
         && negb (tar.Size (tar.header en) =? 0)%Z
         && wanted_name files (tar.Name (cleaned (tar.header en)))
         && bool_decide (tar.Name (cleaned (tar.header en)) ∉ seen)
      then (cleaned (tar.header en), tar.content en)
             :: overlay files ({[tar.Name (cleaned (tar.header en))]} ∪ seen) es'
      else overlay files seen es'
  end.

(** The names of a list of archive members. *)
Definition member_names (ms : list (tar.Header * list byte)) : list string :=
  (fun m => tar.Name m.1) <$> ms.

(** A state of a run in which every write has succeeded and the lookup
    of line 132 has worked: the counter is the size of the resolved set,
    which holds target paths only, and no write is going to fail. *)
Definition settled (files : list FileLocation) (st : State) : Prop :=
  foundLen st = size (processedTargets st) /\
  processedTargets st ⊆ list_to_set (From <$> files) /\
  Forall (fun o => o = tar.WriteOk) (tar.script (tw st)).

(** ** Runs in which every write succeeds *)


(** ** States that differ in the trace only *)

Definition same_but_trace (st st' : State) : Prop :=
  processedTargets st = processedTargets st' /\
  tw st = tw st' /\
  foundLen st = foundLen st'.

(** ** Targets declared with a leading separator *)

Definition is_rooted (s : string) : bool :=
  match s with
  | String c _ => Ascii.eqb c "/"
  | EmptyString => false
  end.

(** Every target is declared with exactly one leading separator. *)
Definition conventional_targets (files : list FileLocation) : Prop :=
  Forall (fun t => is_rooted (From t) = true /\
                   is_rooted (strings.TrimPrefix (From t) "/") = false)
         files.

(** The filters of lines 112-120 as a test. *)
Definition is_extractable (hdr : tar.Header) : bool :=
  negb (Ascii.eqb (tar.Typeflag hdr) tar.TypeDir)
  && negb (tar.Size hdr =? 0)%Z.

(** The entries that are neither directories nor empty and have a wanted
    name, as archive members, in the order given. *)
Definition matching (files : list FileLocation) (es : list tar.Entry)
  : list (tar.Header * list byte) :=
  (fun en => (cleaned (tar.header en), tar.content en))
    <$> List.filter
          (fun en => is_extractable (tar.header en)
                     && wanted_name files (tar.Name (cleaned (tar.header en))))
          es.

(** A state of a run with such targets in which every write has
    succeeded: the counter is the number of members of the archive, and
    the resolved set holds their names, each behind a separator. *)
Definition counted (files : list FileLocation) (st : State) : Prop :=
  Forall (fun o => o = tar.WriteOk) (tar.script (tw st)) /\
  foundLen st = List.length (tar.archive (tw st)) /\
  (foundLen st <= List.length files)%nat /\
  (forall p, p ∈ processedTargets st <->
             exists n, n ∈ member_names (tar.archive (tw st)) /\
                       p = String "/" n).

(** ** Normal relative paths *)

Fixpoint has_slash (s : string) : bool :=
  match s with
  | EmptyString => false
  | String c r => filepath.is_slash c || has_slash r
  end.

(** A path element that [filepath.Clean] keeps: not empty, without a
    separator, and neither [.] nor [..]. *)
Definition is_name (e : string) : Prop :=
  e <> "" /\ has_slash e = false /\ e <> "." /\ e <> "..".

(** The elements joined by single separators. *)
Fixpoint join (names : list string) : string :=
  match names with
  | [] => ""
  | [e] => e
  | e :: rest => (e ++ String "/" (join rest))%string
  end.

(** The output buffer after the separator that a new element needs. *)
Definition with_separator (out : list ascii) : list ascii :=
  if negb (List.length out =? 0)%nat then "/"%char :: out else out.

(** What is left to read after an element: nothing, or a separator. *)
Definition at_boundary (tail : string) : Prop :=
  tail = "" \/ exists r, tail = String "/" r.

(** ** The library functions on the paths of the Go documentation *)

Example Clean_ex1 : filepath.Clean "./usr/bin/foo" = "usr/bin/foo".
Proof. reflexivity. Qed.
Example Clean_ex2 : filepath.Clean "/../a/b/../././/c" = "/a/c".
Proof. reflexivity. Qed.
Example Clean_ex3 : filepath.Clean "abc/def/../../.." = "..".
Proof. reflexivity. Qed.
Example Clean_ex4 : filepath.Clean "../../abc" = "../../abc".
Proof. reflexivity. Qed.
Example Clean_ex5 : filepath.Clean "abc/./../def" = "def".
Proof. reflexivity. Qed.
Example Clean_ex6 : filepath.Clean "a//c/b/.." = "a/c".
Proof. reflexivity. Qed.
Example Clean_ex7 : filepath.Clean "etc/" = "etc".
Proof. reflexivity. Qed.
Example Clean_ex8 : filepath.Clean "./" = ".".
Proof. reflexivity. Qed.
Example Clean_ex9 : filepath.Clean "abc/../../././../def" = "../../def".
Proof. reflexivity. Qed.
Example TrimPrefix_ex1 : strings.TrimPrefix "/usr/bin/foo" "/" = "usr/bin/foo".
Proof. reflexivity. Qed.
Example TrimPrefix_ex2 : strings.TrimPrefix "//usr" "/" = "/usr".
Proof. reflexivity. Qed.
Example TrimPrefix_ex3 : strings.TrimPrefix "usr" "/" = "usr".
Proof. reflexivity. Qed.

(** ** Facts about the library functions *)

Lemma substring_whole (s : string) :
  String.substring 0 (String.length s) s = s.
Proof. induction s as [|c s IH]; simpl; [reflexivity | now rewrite IH]. Qed.

Lemma TrimPrefix_slash (s : string) :
  strings.TrimPrefix (String "/" s) "/" = s.
Proof.
  unfold strings.TrimPrefix.
  replace (String.prefix "/" (String "/" s)) with true by (destruct s; reflexivity).
  simpl. rewrite Nat.sub_0_r. apply substring_whole.
Qed.

Lemma TrimPrefix_no_slash (c : ascii) (s : string) :
  c <> "/"%char -> strings.TrimPrefix (String c s) "/" = String c s.
Proof.
  intros Hc. unfold strings.TrimPrefix.
  replace (String.prefix "/" (String c s)) with false; [reflexivity|].
  destruct s; cbn [String.prefix]; destruct (ascii_dec "/" c); congruence.
Qed.

(** ** The result reporter *)

Lemma report_acc (processed : gset string) (files acc : list FileLocation) :
  fold_left (fun fileLocation f =>
               if decide (From f ∈ processed) then (fileLocation ++ [f])%list
               else fileLocation) files acc
  = (acc ++ filter (fun f => From f ∈ processed) files)%list.
Proof.
  revert acc. induction files as [|f files IH]; intros acc; simpl.
  - now rewrite app_nil_r.
  - rewrite IH, filter_cons. destruct (decide (From f ∈ processed)).
    + now rewrite <- app_assoc.
    + reflexivity.
Qed.

Lemma report_filter (files : list FileLocation) (processed : gset string) :
  report files processed = filter (fun f => From f ∈ processed) files.
Proof. unfold report. now rewrite report_acc. Qed.

Lemma elem_of_report (files : list FileLocation) (processed : gset string) f :
  f ∈ report files processed <-> f ∈ files /\ From f ∈ processed.
Proof. rewrite report_filter, list_elem_of_filter. tauto. Qed.

(** ** Facts about the writer *)

Lemma append_body_headers a b : (tar.append_body a b).*1 = a.*1.
Proof.
  induction a as [|[h c] a IH]; [reflexivity|].
  destruct a as [|m a]; [reflexivity|].
  change (tar.append_body ((h, c) :: m :: a) b)
    with ((h, c) :: tar.append_body (m :: a) b).
  rewrite !fmap_cons. now rewrite IH.
Qed.

Lemma WriteHeader_ok_headers w hdr w' :
  tar.WriteHeader w hdr = (w', true) -> headers w' = (headers w ++ [hdr])%list.
Proof.
  unfold tar.WriteHeader, headers.
  destruct (tar.next_outcome w) as [[|n] s]; intros [= <-]; simpl.
  now rewrite fmap_app.
Qed.

Lemma WriteHeader_err_archive w hdr w' :
  tar.WriteHeader w hdr = (w', false) -> tar.archive w' = tar.archive w.
Proof.
  unfold tar.WriteHeader.
  destruct (tar.next_outcome w) as [[|n] s]; intros [= <-]; reflexivity.
Qed.

Lemma Copy_headers w unread w' unread' ok :
  tar.Copy w unread = (w', unread', ok) -> headers w' = headers w.
Proof.
  unfold tar.Copy, headers.
  destruct (tar.next_outcome w) as [[|n] s]; intros [= <- _ _]; simpl;
    apply append_body_headers.
Qed.

(** ** Steps of the walk preserve the invariants *)

Section Extends.

Variable P : tar.Header -> Prop.

Lemma benign_mono (s s' : gset string) ev : s ⊆ s' -> benign s ev -> benign s' ev.
Proof. intros Hs. destruct ev; simpl; auto. Qed.

Lemma extends_refl st : extends P st st.
Proof.
  repeat split; [done | exists [] | exists []];
    now rewrite app_nil_r.
Qed.

Lemma extends_trans a b c : extends P a b -> extends P b c -> extends P a c.
Proof.
  intros (Hp1 & (e1 & Ht1 & Hb1) & (h1 & Hh1 & HP1))
         (Hp2 & (e2 & Ht2 & Hb2) & (h2 & Hh2 & HP2)).
  split; [set_solver|]. split.
  - exists (e1 ++ e2)%list. split; [now rewrite Ht2, Ht1, app_assoc|].
    apply Forall_app; split; [|assumption].
    eapply Forall_impl; [exact Hb1|]. intros ev. now apply benign_mono.
  - exists (h1 ++ h2)%list. split; [now rewrite Hh2, Hh1, app_assoc|].
    now apply Forall_app.
Qed.

Lemma extends_log ev st :
  benign (processedTargets st) ev -> extends P st (log ev st).
Proof.
  intros Hev. repeat split; [done | exists [ev] | exists []]; simpl.
  - split; [reflexivity | now constructor].
  - now rewrite app_nil_r.
Qed.

(** A matched target whose header write failed. *)
Lemma extends_header_failed st from hdr w :
  tar.WriteHeader (tw (mark from st)) hdr = (w, false) ->
  extends P st (log (EvWriteErr from) (set_tw w (mark from st))).
Proof.
  intros Hw. split; [simpl; set_solver|]. split.
  - exists [EvWriteErr from]. split; [reflexivity|].
    constructor; [simpl; set_solver | constructor].
  - exists []. simpl. unfold headers.
    now rewrite (WriteHeader_err_archive _ _ _ Hw), app_nil_r.
Qed.

(** A matched target whose header was written and whose copy failed. *)
Lemma extends_copy_failed st from hdr w1 unread w2 unread' :
  P hdr ->
  tar.WriteHeader (tw (mark from st)) hdr = (w1, true) ->
  tar.Copy w1 unread = (w2, unread', false) ->
  extends P st (log (EvWriteErr from) (set_tw w2 (mark from st))).
Proof.
  intros HP Hw Hc. split; [simpl; set_solver|]. split.
  - exists [EvWriteErr from]. split; [reflexivity|].
    constructor; [simpl; set_solver | constructor].
  - exists [hdr]. simpl.
    rewrite (Copy_headers _ _ _ _ _ Hc), (WriteHeader_ok_headers _ _ _ Hw).
    split; [reflexivity | now constructor].
Qed.

(** A matched target that was written in full. *)
Lemma extends_written st from hdr w1 unread w2 unread' :
  P hdr ->
  tar.WriteHeader (tw (mark from st)) hdr = (w1, true) ->
  tar.Copy w1 unread = (w2, unread', true) ->
  extends P st (incr_foundLen (set_tw w2 (mark from st))).
Proof.
  intros HP Hw Hc. split; [simpl; set_solver|]. split.
  - exists []. simpl. now rewrite app_nil_r.
  - exists [hdr]. simpl.
    rewrite (Copy_headers _ _ _ _ _ Hc), (WriteHeader_ok_headers _ _ _ Hw).
    split; [reflexivity | now constructor].
Qed.

Lemma scan_targets_extends targets hdr unread st :
  P hdr -> extends P st (scan_targets targets hdr unread st).
Proof.
  intros HP. revert unread st.
  induction targets as [|target targets IH]; intros unread st; simpl.
  - apply extends_refl.
  - destruct (String.eqb _ _); [|apply IH].
    destruct (tar.WriteHeader _ hdr) as [w1 [|]] eqn:Hw.
    + destruct (tar.Copy w1 unread) as [[w2 unread'] [|]] eqn:Hc.
      * eapply extends_written; eauto.
      * eapply extends_trans; [|apply IH].
        eapply extends_copy_failed; eauto.
    + eapply extends_trans; [|apply IH].
      eapply extends_header_failed; eauto.
Qed.

End Extends.

(** The counter moves by at most one per entry. *)
Lemma scan_targets_foundLen targets hdr unread st :
  (foundLen st <= foundLen (scan_targets targets hdr unread st) <= S (foundLen st))%nat.
Proof.
  revert unread st.
  induction targets as [|target targets IH]; intros unread st; simpl.
  - lia.
  - destruct (String.eqb _ _); [|apply IH].
    destruct (tar.WriteHeader _ hdr) as [w1 [|]].
    + destruct (tar.Copy w1 unread) as [[w2 unread'] [|]].
      * simpl. lia.
      * specialize (IH unread' (log (EvWriteErr (From target))
                                    (set_tw w2 (mark (From target) st)))).
        simpl in IH. exact IH.
    + specialize (IH unread (log (EvWriteErr (From target))
                                 (set_tw w1 (mark (From target) st)))).
      simpl in IH. exact IH.
Qed.

(** No target has the normalized path of [hdr]: the scan changes nothing. *)
Lemma scan_targets_no_match targets hdr unread st :
  Forall (fun t => tar.Name hdr <> strings.TrimPrefix (From t) "/") targets ->
  scan_targets targets hdr unread st = st.
Proof.
  induction 1 as [|t targets Ht _ IH]; simpl; [reflexivity|].
  destruct (String.eqb_spec (tar.Name hdr) (strings.TrimPrefix (From t) "/"));
    [contradiction | exact IH].
Qed.

(** The entries loop of one layer: either it ends without error after
    benign steps, or the stream failed to decode after such steps. *)
Lemma read_entries_extends files i es trailer st st' err :
  read_entries files i es trailer st = (st', err) ->
  match err with
  | None => extends extractable st st'
  | Some e =>
      exists st0 e0, extends extractable st st0 /\
                     st' = log (EvClose i) (log (EvNextErr i) st0) /\
                     trailer = Some e0 /\ e = ("reading tar: " ++ e0)%string
  end.
Proof.
  revert st. induction es as [|en es IH]; intros st; simpl.
  - destruct trailer as [e0|]; intros [= <- <-].
    + exists st, e0. split; [apply extends_refl | auto].
    + apply extends_refl.
  - destruct (Ascii.eqb_spec (tar.Typeflag (tar.header en)) tar.TypeDir) as [|Hdir];
      [apply IH|].
    destruct (Z.eqb_spec (tar.Size (tar.header en)) 0) as [|Hsize]; [apply IH|].
    destruct (_ =? 0)%nat; [apply IH|].
    destruct (decide _); [apply IH|].
    set (hdr := tar.set_Name _ _).
    assert (Hext : extends extractable st
                     (scan_targets files hdr (tar.content en) st)).
    { apply scan_targets_extends. split; assumption. }
    destruct (_ =? _)%nat.
    + intros [= <- <-]. exact Hext.
    + intros Hrest. specialize (IH _ Hrest). destruct err as [e|].
      * destruct IH as (st0 & e0 & Hst0 & ?). exists st0, e0.
        split; [eapply extends_trans; eauto | assumption].
      * eapply extends_trans; eauto.
Qed.

Lemma walk_layers_extends files layers n st st' err :
  walk_layers files layers n st = (st', err) ->
  match err with
  | None => extends extractable st st'
  | Some e => exists st0, extends extractable st st0 /\ aborted_at layers st0 st' e
  end.
Proof.
  revert st. induction n as [|i IH]; intros st; simpl.
  - intros [= <- <-]. apply extends_refl.
  - destruct (_ =? _)%nat; [intros [= <- <-]; apply extends_refl|].
    destruct (layers !! i) as [layer|] eqn:Hl;
      [|intros [= <- <-]; apply extends_refl].
    destruct (Uncompressed layer) as [stream|e0] eqn:Hu.
    + destruct (read_entries _ _ _ _ _) as [st1 [e1|]] eqn:Hr;
        apply read_entries_extends in Hr.
      * intros [= <- <-]. destruct Hr as (st0 & e0 & Hst0 & -> & Htr & ->).
        exists st0. split.
        -- eapply extends_trans; [apply (extends_log _ (EvOpen i) st I) | exact Hst0].
        -- exists i, layer. split; [assumption|]. right. exists stream, e0. auto.
      * intros Hw. specialize (IH _ Hw).
        assert (Hst1 : extends extractable st (log (EvClose i) st1)).
        { eapply extends_trans; [apply (extends_log _ (EvOpen i) st I)|].
          eapply extends_trans; [exact Hr | apply (extends_log _ (EvClose i) st1 I)]. }
        destruct err as [e|].
        -- destruct IH as (st0 & Hst0 & Hab). exists st0.
           split; [eapply extends_trans; eauto | assumption].
        -- eapply extends_trans; eauto.
    + intros [= <- <-]. exists st. split; [apply extends_refl|].
      exists i, layer. split; [assumption|]. left. exists e0. auto.
Qed.

(** ** The scan of the targets, case by case *)

Lemma scan_targets_skip target targets hdr unread st :
  ~ matches hdr target ->
  scan_targets (target :: targets) hdr unread st
  = scan_targets targets hdr unread st.
Proof.
  intros Hn. simpl.
  destruct (String.eqb_spec (tar.Name hdr) (strings.TrimPrefix (From target) "/"));
    [contradiction | reflexivity].
Qed.

Lemma scan_targets_match target targets hdr unread st :
  matches hdr target ->
  scan_targets (target :: targets) hdr unread st
  = match write_entry (tw st) hdr unread with
    | (w, unread', false) =>
        scan_targets targets hdr unread'
          (log (EvWriteErr (From target)) (set_tw w (mark (From target) st)))
    | (w, _, true) => incr_foundLen (set_tw w (mark (From target) st))
    end.
Proof.
  intros Hm. simpl. unfold write_entry.
  destruct (String.eqb_spec (tar.Name hdr) (strings.TrimPrefix (From target) "/"));
    [|contradiction].
  destruct (tar.WriteHeader (tw st) hdr) as [w1 [|]]; [|reflexivity].
  destruct (tar.Copy w1 unread) as [[w2 unread'] [|]]; reflexivity.
Qed.


(** [filepath.Clean] never returns the empty string, so the test of
    line 127 never skips an entry. *)
Lemma length_string_of_list_ascii (l : list ascii) :
  String.length (string_of_list_ascii l) = List.length l.
Proof. induction l as [|c l IH]; simpl; [reflexivity | now rewrite IH]. Qed.

Lemma Clean_nonempty (path : string) :
  String.length (filepath.Clean path) <> 0%nat.
Proof.
  unfold filepath.Clean. destruct path as [|c path]; [discriminate|].
  match goal with |- context [match ?o with [] => _ | _ => _ end] =>
    destruct o as [|a out] eqn:Ho end; [discriminate|].
  rewrite length_string_of_list_ascii, length_rev. discriminate.
Qed.

(** An entry that passes the filters is handed to the scan. *)
Lemma read_entries_scan files i en es trailer st :
  extractable (tar.header en) ->
  tar.Name (cleaned (tar.header en)) ∉ processedTargets st ->
  read_entries files i (en :: es) trailer st
  = if (foundLen (scan_targets files (cleaned (tar.header en))
                               (tar.content en) st)
        =? List.length files)%nat
    then (scan_targets files (cleaned (tar.header en)) (tar.content en) st, None)
    else read_entries files i es trailer
           (scan_targets files (cleaned (tar.header en)) (tar.content en) st).
Proof.
  intros [Hdir Hsize] Hnew. simpl.
  destruct (Ascii.eqb_spec (tar.Typeflag (tar.header en)) tar.TypeDir);
    [contradiction|].
  destruct (Z.eqb_spec (tar.Size (tar.header en)) 0); [contradiction|].
  destruct (Nat.eqb_spec (String.length (filepath.Clean (tar.Name (tar.header en)))) 0)
    as [E|_]; [now apply Clean_nonempty in E|].
  destruct (decide _) as [Hin|_]; [contradiction|].
  reflexivity.
Qed.

(** ** What a call of [Extract] amounts to *)

Lemma Extract_layers_failed img platform dest env e :
  Layers img = Err e ->
  Extract img platform dest env
  = {| ret_files := [];
       ret_err := Some ("retrieving image layers: " ++ e)%string;
       final := None |}.
Proof. intros H. unfold Extract. now rewrite H. Qed.

Lemma Extract_create_failed img platform dest env layers e :
  Layers img = Ok layers -> os_Create env dest = Some e ->
  Extract img platform dest env
  = {| ret_files := []; ret_err := Some e; final := None |}.
Proof. intros H1 H2. unfold Extract. now rewrite H1, H2. Qed.

Lemma Extract_walk img platform dest env layers :
  Layers img = Ok layers -> os_Create env dest = None ->
  Extract img platform dest env
  = match walk_layers (Files platform) layers (List.length layers) (init env) with
    | (st, Some e) => {| ret_files := []; ret_err := Some e; final := Some st |}
    | (st, None) =>
        {| ret_files := report (Files platform) (processedTargets st);
           ret_err := None; final := Some st |}
    end.
Proof. intros H1 H2. unfold Extract. now rewrite H1, H2. Qed.

(** A run that returns no error created the destination, walked the
    layers by benign steps only, and reports from the final state. *)
Lemma Extract_no_error img platform dest env :
  ret_err (Extract img platform dest env) = None ->
  exists st, Extract img platform dest env
             = {| ret_files := report (Files platform) (processedTargets st);
                  ret_err := None; final := Some st |} /\
             extends extractable (init env) st.
Proof.
  destruct (Layers img) as [layers|e] eqn:Hl;
    [|now rewrite (Extract_layers_failed _ _ _ _ _ Hl)].
  destruct (os_Create env dest) as [e|] eqn:Hc;
    [now rewrite (Extract_create_failed _ _ _ _ _ _ Hl Hc)|].
  rewrite (Extract_walk _ _ _ _ _ Hl Hc).
  destruct (walk_layers _ _ _ _) as [st [e|]] eqn:Hw; [discriminate|].
  intros _. exists st. split; [reflexivity|].
  exact (walk_layers_extends _ _ _ _ _ _ Hw).
Qed.



(** ** The result reporter (lines 159-166) *)

(** C6.  The list returned by the reporter is exactly the sub-sequence of
    the caller's [FileLocation] entries whose [From] is in the resolved
    set, in the caller's order; an entry that was never resolved is left
    out, and nothing else happens for it.  A run of [Extract] that returns
    no error returns the reporter's list for the final resolved set. *)
Theorem report_is_ordered_subsequence :
  (forall (files : list FileLocation) (processed : gset string),
      report files processed = filter (fun f => From f ∈ processed) files /\
      sublist (report files processed) files /\
      (forall f, f ∈ report files processed <-> f ∈ files /\ From f ∈ processed)) /\
  (forall img platform dest env,
      ret_err (Extract img platform dest env) = None ->
      exists st, final (Extract img platform dest env) = Some st /\
                 ret_files (Extract img platform dest env)
                 = filter (fun f => From f ∈ processedTargets st) (Files platform)).
Proof.
  split.
  - intros files processed. split; [apply report_filter|]. split.
    + rewrite report_filter. apply sublist_filter.
    + apply elem_of_report.
  - intros img platform dest env Hok.
    destruct (Extract_no_error _ _ _ _ Hok) as (st & -> & _).
    exists st. simpl. split; [reflexivity | apply report_filter].
Qed.

(** ** Fatal errors (lines 70-80 and 96-110) *)


(** ** Exclusion rules (lines 112-120) *)

(** C8.  A directory entry is passed over without any effect, whatever
    its name, and so is an entry of length zero; consequently no member of
    the archive that [Extract] leaves behind has a directory header or a
    header of size zero. *)
Theorem directories_and_empty_entries_never_written :
  (forall files i en es trailer st,
      tar.Typeflag (tar.header en) = tar.TypeDir ->
      read_entries files i (en :: es) trailer st
      = read_entries files i es trailer st) /\
  (forall files i en es trailer st,
      tar.Size (tar.header en) = 0 ->
      read_entries files i (en :: es) trailer st
      = read_entries files i es trailer st) /\
  (forall img platform dest env hdr body,
      (hdr, body) ∈ written (Extract img platform dest env) ->
      tar.Typeflag hdr <> tar.TypeDir /\ tar.Size hdr <> 0).
Proof.
  split; [|split].
  - intros files i en es trailer st Hdir. simpl. rewrite Hdir. reflexivity.
  - intros files i en es trailer st Hsize. simpl. rewrite Hsize.
    destruct (Ascii.eqb _ _); reflexivity.
  - intros img platform dest env hdr body Hin.
    assert (Hall : exists st, final (Extract img platform dest env) = Some st /\
                              Forall extractable (headers (tw st))).
    { destruct (Layers img) as [layers|e] eqn:Hl;
        [|rewrite (Extract_layers_failed _ _ _ _ _ Hl) in Hin;
          now apply elem_of_nil in Hin].
      destruct (os_Create env dest) as [e|] eqn:Hc;
        [rewrite (Extract_create_failed _ _ _ _ _ _ Hl Hc) in Hin;
         now apply elem_of_nil in Hin|].
      rewrite (Extract_walk _ _ _ _ _ Hl Hc).
      destruct (walk_layers _ _ _ _) as [st [e|]] eqn:Hw;
        apply walk_layers_extends in Hw; exists st; (split; [reflexivity|]).
      - destruct Hw as (st0 & (_ & _ & hs & Hh & HP) & i & layer & _ & Hab).
        replace (headers (tw st)) with (headers (tw st0)).
        + rewrite Hh. exact HP.
        + destruct Hab as [(? & _ & -> & _)|(? & ? & _ & _ & -> & _)];
            reflexivity.
      - destruct Hw as (_ & _ & hs & Hh & HP). rewrite Hh. exact HP. }
    destruct Hall as (st & Hst & Hall). unfold written in Hin.
    rewrite Hst in Hin. rewrite Forall_forall in Hall.
    apply (Hall hdr). unfold headers.
    change hdr with ((hdr, body).1). now apply list_elem_of_fmap_2.
Qed.

(** ** Failed writes (lines 136-151 and 159-164) *)

(** The state that the scan goes on with after the write for a matched
    target failed: the path is marked, the failure logged, the counter
    untouched. *)
Lemma scan_targets_write_failed target targets hdr unread st w unread' :
  matches hdr target ->
  write_entry (tw st) hdr unread = (w, unread', false) ->
  scan_targets (target :: targets) hdr unread st
  = scan_targets targets hdr unread'
      (log (EvWriteErr (From target)) (set_tw w (mark (From target) st))).
Proof.
  intros Hm Hw. rewrite scan_targets_match by assumption. now rewrite Hw.
Qed.

(** C5.  When the header or content write for a matched target fails, the
    scan goes on from a state in which the target's [From] is already in
    [processedTargets] and the counter is what it was; and in every run
    that returns a list, each target of the caller for which a write
    failed is in that list. *)
Theorem failed_write_target_still_reported :
  (forall target targets hdr unread st w unread',
      matches hdr target ->
      write_entry (tw st) hdr unread = (w, unread', false) ->
      exists st1,
        scan_targets (target :: targets) hdr unread st
        = scan_targets targets hdr unread' st1 /\
        From target ∈ processedTargets st1 /\
        foundLen st1 = foundLen st /\
        EvWriteErr (From target) ∈ trace st1) /\
  (forall img platform dest env target,
      target ∈ Files platform ->
      EvWriteErr (From target) ∈ accesses (Extract img platform dest env) ->
      ret_err (Extract img platform dest env) = None ->
      target ∈ ret_files (Extract img platform dest env) /\
      exists st, final (Extract img platform dest env) = Some st /\
                 From target ∈ processedTargets st).
Proof.
  split.
  - intros target targets hdr unread st w unread' Hm Hw.
    eexists. split; [apply scan_targets_write_failed; eassumption|].
    simpl. split; [set_solver|]. split; [reflexivity|].
    apply elem_of_app. right. apply list_elem_of_here.
  - intros img platform dest env target Hin Hev Hok.
    destruct (Extract_no_error _ _ _ _ Hok) as (st & Hrun & _ & (evs & Htr & Hb) & _).
    rewrite Hrun in *. unfold accesses in Hev. simpl in *.
    rewrite Htr in Hev. rewrite Forall_forall in Hb.
    specialize (Hb _ Hev). simpl in Hb. split.
    + apply elem_of_report. auto.
    + exists st. auto.
Qed.

(** ** Empty target list (lines 87-93 and 159-166) *)


(** ** Early termination (lines 91-94 and 152-154) *)

Lemma walk_layers_done files layers n st :
  foundLen st = List.length files -> walk_layers files layers n st = (st, None).
Proof.
  intros H. destruct n as [|i]; simpl; [reflexivity|].
  now rewrite H, Nat.eqb_refl.
Qed.

Lemma append_body_last a hdr c b :
  tar.append_body (a ++ [(hdr, c)]) b = (a ++ [(hdr, (c ++ b)%list)])%list.
Proof.
  induction a as [|[h0 c0] a IH]; [reflexivity|].
  destruct a as [|m a]; [reflexivity|].
  simpl app in *.
  change (tar.append_body ((h0, c0) :: m :: (a ++ [(hdr, c)])%list) b)
    with ((h0, c0) :: tar.append_body (m :: (a ++ [(hdr, c)])%list) b).
  now rewrite IH.
Qed.

Lemma write_entry_ok w hdr unread :
  Forall (fun o => o = tar.WriteOk) (take 2 (tar.script w)) ->
  exists w', write_entry w hdr unread = (w', [], true) /\
             tar.archive w' = (tar.archive w ++ [(hdr, unread)])%list.
Proof.
  intros Hs. unfold write_entry, tar.WriteHeader, tar.Copy, tar.next_outcome.
  pose proof (fun a => append_body_last a hdr [] unread) as Hlast.
  simpl in Hlast.
  destruct (tar.script w) as [|o1 s] eqn:H1; simpl.
  - eexists. split; [reflexivity|]. simpl. apply Hlast.
  - simpl in Hs. apply Forall_cons in Hs as [-> Hs].
    destruct s as [|o2 s]; simpl.
    + eexists. split; [reflexivity|]. simpl. apply Hlast.
    + simpl in Hs. apply Forall_cons in Hs as [-> _].
      eexists. split; [reflexivity|]. simpl. apply Hlast.
Qed.

(** With a single target that some entry of the stream provides, and
    writes that succeed, the entries loop ends at the first such entry. *)
Lemma read_entries_single_target target i es trailer st :
  processedTargets st = ∅ ->
  foundLen st = 0%nat ->
  Forall (fun o => o = tar.WriteOk) (take 2 (tar.script (tw st))) ->
  Exists (fun en => extractable (tar.header en) /\
                    matches (cleaned (tar.header en)) target) es ->
  exists st', read_entries [target] i es trailer st = (st', None) /\
              foundLen st' = 1%nat /\ trace st' = trace st /\
              From target ∈ processedTargets st'.
Proof.
  intros Hp Hf Hs. induction es as [|en es IH]; intros Hex.
  - now apply Exists_nil in Hex.
  - assert (Hrest : (extractable (tar.header en) /\
                     matches (cleaned (tar.header en)) target) \/
                    (read_entries [target] i (en :: es) trailer st
                     = read_entries [target] i es trailer st /\
                     Exists (fun en => extractable (tar.header en) /\
                               matches (cleaned (tar.header en)) target) es)).
    { apply Exists_cons in Hex as [Hex|Hex]; [now left|].
      destruct (Ascii.eqb_spec (tar.Typeflag (tar.header en)) tar.TypeDir) as [Hd|Hd].
      { right. split; [|exact Hex]. simpl. now rewrite Hd. }
      destruct (Z.eqb_spec (tar.Size (tar.header en)) 0) as [Hz|Hz].
      { right. split; [|exact Hex]. simpl. rewrite Hz.
        destruct (Ascii.eqb _ _); reflexivity. }
      destruct (String.eqb_spec (tar.Name (cleaned (tar.header en)))
                                (strings.TrimPrefix (From target) "/")) as [Hm|Hm].
      { left. split; [split|]; assumption. }
      right. split; [|exact Hex].
      rewrite read_entries_scan; [|split; assumption|rewrite Hp; set_solver].
      rewrite (scan_targets_no_match [target]) by (repeat constructor; exact Hm).
      now rewrite Hf. }
    destruct Hrest as [[Hext Hm]|[-> Hex']]; [|now apply IH].
    rewrite read_entries_scan; [|assumption|rewrite Hp; set_solver].
    rewrite scan_targets_match by assumption.
    destruct (write_entry_ok (tw st) (cleaned (tar.header en)) (tar.content en) Hs)
      as (w' & -> & _).
    simpl. rewrite Hf. simpl. eexists. split; [reflexivity|].
    simpl. split; [now rewrite Hf|]. split; [reflexivity | set_solver].
Qed.

(** C3.  From a state in which the counter equals the number of targets
    the walk over the layers returns at once, with the state, and so the
    trace of accesses, unchanged, whatever layers remain; the entries
    loop returns as soon as an entry brings the counter to that number,
    whatever follows in the stream.  In particular, with one target that
    an entry of the top layer provides and writes that succeed, only the
    top layer is opened, whatever the layers below are. *)
Theorem early_termination :
  (forall files layers n st,
      foundLen st = List.length files ->
      walk_layers files layers n st = (st, None)) /\
  (forall files i en es trailer st,
      extractable (tar.header en) ->
      tar.Name (cleaned (tar.header en)) ∉ processedTargets st ->
      foundLen (scan_targets files (cleaned (tar.header en)) (tar.content en) st)
      = List.length files ->
      read_entries files i (en :: es) trailer st
      = (scan_targets files (cleaned (tar.header en)) (tar.content en) st, None)) /\
  (forall lower stream target dest env,
      os_Create env dest = None ->
      Forall (fun o => o = tar.WriteOk) (take 2 (faults env)) ->
      Exists (fun en => extractable (tar.header en) /\
                        matches (cleaned (tar.header en)) target)
             (entries stream) ->
      ret_err (Extract {| Layers := Ok (lower ++ [{| Uncompressed := Ok stream |}])%list |}
                       {| Files := [target] |} dest env) = None /\
      ret_files (Extract {| Layers := Ok (lower ++ [{| Uncompressed := Ok stream |}])%list |}
                         {| Files := [target] |} dest env) = [target] /\
      accesses (Extract {| Layers := Ok (lower ++ [{| Uncompressed := Ok stream |}])%list |}
                        {| Files := [target] |} dest env)
      = [EvOpen (List.length lower); EvClose (List.length lower)]).
Proof.
  split; [exact walk_layers_done|]. split.
  - intros files i en es trailer st Hext Hnew Hfull.
    rewrite read_entries_scan by assumption. now rewrite Hfull, Nat.eqb_refl.
  - intros lower stream target dest env Hc Hs Hex.
    rewrite (Extract_walk
               {| Layers := Ok (lower ++ [{| Uncompressed := Ok stream |}])%list |}
               {| Files := [target] |} dest env _ eq_refl Hc).
    simpl Files.
    rewrite length_app, Nat.add_1_r. simpl walk_layers.
    rewrite list_lookup_middle by reflexivity. simpl.
    destruct (read_entries_single_target target (List.length lower)
                (entries stream) (trailer stream) (log (EvOpen (List.length lower)) (init env)))
      as (st' & -> & Hf & Htr & Hin); try reflexivity; try assumption.
    rewrite walk_layers_done by (simpl; exact Hf).
    unfold accesses. simpl. rewrite Htr. simpl. repeat split.
    rewrite report_filter, filter_cons, decide_True by assumption. reflexivity.
Qed.

Lemma early_termination_witness :
  walk_layers [wanted "/a"] [corrupt_layer; corrupt_layer] 2
              (incr_foundLen (init sound_env))
  = (incr_foundLen (init sound_env), None) /\
  accesses (Extract guarded_image {| Files := [wanted "/usr/bin/foo"] |}
                    "plugins.tar.gz" sound_env)
  = [EvOpen 1; EvClose 1].
Proof.
  destruct early_termination as (Hwalk & _ & Htop). split.
  - apply Hwalk. reflexivity.
  - apply (Htop [corrupt_layer]
                {| entries := [regular "usr/bin/foo" "foo"]; trailer := None |}
                (wanted "/usr/bin/foo") "plugins.tar.gz" sound_env).
    + reflexivity.
    + constructor.
    + apply Exists_cons_hd. split; [split; discriminate | reflexivity].
Defined.

(** ** Path normalization (lines 122-138) *)

Lemma walk_single_layer files stream st :
  foundLen st <> List.length files ->
  walk_layers files [{| Uncompressed := Ok stream |}] 1 st
  = match read_entries files 0 (entries stream) (trailer stream)
                       (log (EvOpen 0) st) with
    | (st', Some e) => (st', Some e)
    | (st', None) => (log (EvClose 0) st', None)
    end.
Proof.
  intros Hf. simpl. destruct (Nat.eqb_spec (foundLen st) (List.length files));
    [contradiction|].
  destruct (read_entries _ _ _ _ _) as [st' [e|]]; reflexivity.
Qed.

(** C9.  Exactly one leading separator is taken off a target's [From],
    and a path without one is left as it is; the entry name
    [./usr/bin/foo] is cleaned to the path that [/usr/bin/foo] is trimmed
    to, so the two match; and an image whose layer holds a non-empty file
    under the first name yields the target declared under the second. *)
Theorem path_normalization :
  (forall s, strings.TrimPrefix (String "/" s) "/" = s) /\
  (forall c s, c <> "/"%char ->
               strings.TrimPrefix (String c s) "/" = String c s) /\
  (forall typeflag size to,
      matches (cleaned {| tar.Typeflag := typeflag; tar.Name := "./usr/bin/foo";
                          tar.Size := size |})
              {| From := "/usr/bin/foo"; To := to |}) /\
  (forall typeflag size body to dest env,
      typeflag <> tar.TypeDir -> size <> 0 ->
      os_Create env dest = None ->
      Forall (fun o => o = tar.WriteOk) (take 2 (faults env)) ->
      ret_files
        (Extract {| Layers := Ok [{| Uncompressed :=
                     Ok {| entries := [{| tar.header :=
                                            {| tar.Typeflag := typeflag;
                                               tar.Name := "./usr/bin/foo";
                                               tar.Size := size |};
                                          tar.content := body |}];
                           trailer := None |} |}] |}
                 {| Files := [{| From := "/usr/bin/foo"; To := to |}] |}
                 dest env)
      = [{| From := "/usr/bin/foo"; To := to |}] /\
      written
        (Extract {| Layers := Ok [{| Uncompressed :=
                     Ok {| entries := [{| tar.header :=
                                            {| tar.Typeflag := typeflag;
                                               tar.Name := "./usr/bin/foo";
                                               tar.Size := size |};
                                          tar.content := body |}];
                           trailer := None |} |}] |}
                 {| Files := [{| From := "/usr/bin/foo"; To := to |}] |}
                 dest env)
      = [({| tar.Typeflag := typeflag; tar.Name := "usr/bin/foo";
             tar.Size := size |}, body)]).
Proof.
  split; [exact TrimPrefix_slash|]. split; [exact TrimPrefix_no_slash|].
  split; [reflexivity|].
  intros typeflag size body to dest env Hdir Hsize Hc Hs.
  set (img := {| Layers := _ |}). set (platform := {| Files := _ |}).
  rewrite (Extract_walk img platform dest env _ eq_refl Hc).
  subst img platform. simpl Files. simpl List.length.
  rewrite walk_single_layer by discriminate. simpl entries. simpl trailer.
  rewrite read_entries_scan; [|split; assumption|simpl; set_solver].
  rewrite scan_targets_match by reflexivity.
  destruct (write_entry_ok (tw (log (EvOpen 0) (init env)))
              (cleaned {| tar.Typeflag := typeflag; tar.Name := "./usr/bin/foo";
                          tar.Size := size |}) body Hs) as (w' & Hw & Harch).
  cbn [tar.header tar.content]. rewrite Hw.
  cbn [foundLen incr_foundLen set_tw mark log init Nat.eqb List.length].
  cbn [read_entries].
  unfold written. cbn [final tw ret_files processedTargets log]. split.
  - rewrite report_filter, filter_cons, decide_True by set_solver. reflexivity.
  - change (tar.archive (tw _)) with (tar.archive w'). rewrite Harch. reflexivity.
Qed.

Lemma path_normalization_witness :
  ret_files (Extract {| Layers := Ok [layer_of [regular "./usr/bin/foo" "foo"]] |}
                     {| Files := [wanted "/usr/bin/foo"] |}
                     "plugins.tar.gz" sound_env)
  = [wanted "/usr/bin/foo"].
Proof.
  destruct path_normalization as (_ & _ & _ & Hrun).
  apply (Hrun tar.TypeReg 3 (list_byte_of_string "foo") "/usr/bin/foo"
              "plugins.tar.gz" sound_env).
  - discriminate.
  - discriminate.
  - reflexivity.
  - constructor.
Defined.

(** ** Failed writes do not end the run (lines 137-151) *)




(** ** Overlay precedence (lines 124-139) *)

(** C1, on [overlay_image].  The top layer's copy of [a] is written and
    [/a] is marked, and the bottom layer's copy of [a] is then matched
    and written as well: line 132 looks up the entry's cleaned name,
    line 139 stores the target's [From] with its leading separator.  The
    second copy is counted as a second found target, which ends the
    walk. *)
Theorem deeper_copy_written_after_resolution :
  written (Extract overlay_image overlay_platform "plugins.tar.gz" sound_env)
  = [member_of (regular "a" "top"); member_of (regular "a" "bottom")] /\
  ret_files (Extract overlay_image overlay_platform "plugins.tar.gz" sound_env)
  = [wanted "/a"] /\
  ret_err (Extract overlay_image overlay_platform "plugins.tar.gz" sound_env)
  = None /\
  option_map foundLen
    (final (Extract overlay_image overlay_platform "plugins.tar.gz" sound_env))
  = Some 2%nat.
Proof. vm_compute. repeat split. Qed.

(** ** The end-to-end scenario (lines 87-166) *)

(** C2, on [scenario_image].  The result list and the absence of an error
    are as expected, but the archive has three members: the bottom
    layer's 5-byte [usr/bin/foo] is written after the top layer's 12-byte
    one, before the bottom layer's 3-byte [usr/bin/bar]. *)
Theorem scenario_archive_has_three_members :
  ret_files (Extract scenario_image scenario_platform "plugins.tar.gz" sound_env)
  = [wanted "/usr/bin/foo"; wanted "/usr/bin/bar"] /\
  ret_err (Extract scenario_image scenario_platform "plugins.tar.gz" sound_env)
  = None /\
  written (Extract scenario_image scenario_platform "plugins.tar.gz" sound_env)
  = [member_of (regular "usr/bin/foo" "foo, the new");
     member_of (regular "usr/bin/foo" "older");
     member_of (regular "usr/bin/bar" "bar")] /\
  map (fun m => tar.Size (fst m))
      (written (Extract scenario_image scenario_platform "plugins.tar.gz"
                        sound_env))
  = [12; 5; 3].
Proof. vm_compute. repeat split. Qed.

(** ** The statements above on concrete runs *)

Lemma report_is_ordered_subsequence_witness :
  exists st,
    final (Extract scenario_image scenario_platform "plugins.tar.gz" sound_env)
    = Some st /\
    ret_files (Extract scenario_image scenario_platform "plugins.tar.gz" sound_env)
    = filter (fun f => From f ∈ processedTargets st) (Files scenario_platform).
Proof.
  apply (proj2 report_is_ordered_subsequence). reflexivity.
Defined.


Lemma directories_and_empty_entries_never_written_witness :
  read_entries [wanted "/etc"] 0 [directory "etc/"; regular "etc" ""] None
               (init sound_env)
  = read_entries [wanted "/etc"] 0 [] None (init sound_env).
Proof.
  destruct directories_and_empty_entries_never_written as (Hdir & Hempty & _).
  rewrite Hdir by reflexivity. apply Hempty. reflexivity.
Defined.

Lemma failed_write_target_still_reported_witness :
  wanted "/usr/bin/oc"
  ∈ ret_files (Extract oc_image {| Files := [wanted "/usr/bin/oc"] |}
                       "plugins.tar.gz" flaky_env).
Proof.
  apply (proj2 failed_write_target_still_reported oc_image
               {| Files := [wanted "/usr/bin/oc"] |} "plugins.tar.gz" flaky_env).
  - apply list_elem_of_here.
  - change (EvWriteErr "/usr/bin/oc"
            ∈ [EvOpen 0; EvWriteErr "/usr/bin/oc"; EvClose 0]).
    apply list_elem_of_further, list_elem_of_here.
  - reflexivity.
Defined.


(** ** The counter and the order of the accesses *)

(** The entries loop, one entry at a time: the entry is passed over, or
    it passes the filters and is handed to the scan. *)
Lemma read_entries_cons files i en es trailer st :
  (read_entries files i (en :: es) trailer st
   = read_entries files i es trailer st) \/
  (extractable (tar.header en) /\
   (tar.Name (cleaned (tar.header en)) ∉ processedTargets st) /\
   read_entries files i (en :: es) trailer st
   = if (foundLen (scan_targets files (cleaned (tar.header en))
                                (tar.content en) st)
         =? List.length files)%nat
     then (scan_targets files (cleaned (tar.header en)) (tar.content en) st, None)
     else read_entries files i es trailer
            (scan_targets files (cleaned (tar.header en)) (tar.content en) st)).
Proof.
  destruct (Ascii.eqb_spec (tar.Typeflag (tar.header en)) tar.TypeDir) as [Hd|Hd].
  { left. simpl. now rewrite Hd. }
  destruct (Z.eqb_spec (tar.Size (tar.header en)) 0) as [Hz|Hz].
  { left. simpl. rewrite Hz. destruct (Ascii.eqb _ _); reflexivity. }
  destruct (decide (tar.Name (cleaned (tar.header en)) ∈ processedTargets st))
    as [Hin|Hin].
  { left. simpl. destruct (Ascii.eqb _ _); [reflexivity|].
    destruct (Z.eqb _ _); [reflexivity|].
    destruct (Nat.eqb _ _); [reflexivity|].
    unfold cleaned in Hin.
    destruct (decide _); [reflexivity | contradiction]. }
  right. split; [split; assumption|]. split; [assumption|].
  apply read_entries_scan; [split|]; assumption.
Qed.

Lemma read_entries_foundLen files i es trailer st st' err :
  (foundLen st < List.length files)%nat ->
  read_entries files i es trailer st = (st', err) ->
  (foundLen st <= foundLen st' <= List.length files)%nat.
Proof.
  revert st. induction es as [|en es IH]; intros st Hlt.
  - simpl. destruct trailer; intros [= <- <-]; simpl; lia.
  - destruct (read_entries_cons files i en es trailer st) as [->|(_ & _ & ->)];
      [now apply IH|].
    pose proof (scan_targets_foundLen files (cleaned (tar.header en))
                  (tar.content en) st) as Hscan.
    destruct (Nat.eqb_spec
                (foundLen (scan_targets files (cleaned (tar.header en))
                                        (tar.content en) st))
                (List.length files)) as [Heq|Hne].
    + intros [= <- <-]. lia.
    + intros Hrest. apply IH in Hrest; lia.
Qed.

Lemma walk_layers_foundLen files layers n st st' err :
  (foundLen st <= List.length files)%nat ->
  walk_layers files layers n st = (st', err) ->
  (foundLen st <= foundLen st' <= List.length files)%nat.
Proof.
  revert st. induction n as [|i IH]; intros st Hle; simpl.
  - intros [= <- <-]. lia.
  - destruct (Nat.eqb_spec (foundLen st) (List.length files)) as [Heq|Hne];
      [intros [= <- <-]; lia|].
    destruct (layers !! i) as [layer|]; [|intros [= <- <-]; lia].
    destruct (Uncompressed layer) as [stream|e0];
      [|intros [= <- <-]; simpl; lia].
    destruct (read_entries _ _ _ _ _) as [st1 [e1|]] eqn:Hr;
      apply read_entries_foundLen in Hr; simpl in *; try lia.
    + intros [= <- <-]. lia.
    + intros Hw. apply IH in Hw; simpl in *; lia.
Qed.

(** X1.  The counter never passes the number of targets: in the state
    that any run ends in, [foundLen] is at most [len(platform.Files)], so
    the equality tests of lines 92 and 152 cannot be jumped over. *)
Theorem counter_never_exceeds_targets :
  forall img platform dest env st,
    final (Extract img platform dest env) = Some st ->
    (foundLen st <= List.length (Files platform))%nat.
Proof.
  intros img platform dest env st.
  destruct (Layers img) as [layers|e] eqn:Hl;
    [|now rewrite (Extract_layers_failed _ _ _ _ _ Hl)].
  destruct (os_Create env dest) as [e|] eqn:Hc;
    [now rewrite (Extract_create_failed _ _ _ _ _ _ Hl Hc)|].
  rewrite (Extract_walk _ _ _ _ _ Hl Hc).
  destruct (walk_layers _ _ _ _) as [st1 err] eqn:Hw.
  apply walk_layers_foundLen in Hw; [|simpl; lia].
  destruct err; intros [= <-]; lia.
Qed.

Lemma counter_never_exceeds_targets_witness :
  exists st,
    final (Extract overlay_image overlay_platform "plugins.tar.gz" sound_env)
    = Some st /\ (foundLen st <= 2)%nat.
Proof.
  eexists. split; [reflexivity|].
  apply (counter_never_exceeds_targets overlay_image overlay_platform
           "plugins.tar.gz" sound_env).
  reflexivity.
Defined.

Lemma layer_events_app tr1 tr2 :
  layer_events (tr1 ++ tr2) = (layer_events tr1 ++ layer_events tr2)%list.
Proof. apply List.filter_app. Qed.

Lemma scan_targets_layer_events targets hdr unread st :
  layer_events (trace (scan_targets targets hdr unread st))
  = layer_events (trace st).
Proof.
  revert unread st.
  induction targets as [|target targets IH]; intros unread st; simpl;
    [reflexivity|].
  destruct (String.eqb _ _); [|apply IH].
  destruct (tar.WriteHeader _ hdr) as [w1 [|]].
  - destruct (tar.Copy w1 unread) as [[w2 unread'] [|]]; [reflexivity|].
    rewrite IH. simpl. rewrite layer_events_app. simpl. apply app_nil_r.
  - rewrite IH. simpl. rewrite layer_events_app. simpl. apply app_nil_r.
Qed.

Lemma read_entries_layer_events files i es trailer st st' err :
  read_entries files i es trailer st = (st', err) ->
  layer_events (trace st')
  = (layer_events (trace st)
     ++ match err with
        | None => []
        | Some _ => [EvNextErr i; EvClose i]
        end)%list.
Proof.
  revert st. induction es as [|en es IH]; intros st.
  - simpl. destruct trailer; intros [= <- <-]; simpl.
    + rewrite !layer_events_app. simpl. now rewrite <- app_assoc.
    + now rewrite app_nil_r.
  - destruct (read_entries_cons files i en es trailer st) as [->|(_ & _ & ->)];
      [apply IH|].
    destruct (Nat.eqb _ _).
    + intros [= <- <-]. rewrite scan_targets_layer_events. now rewrite app_nil_r.
    + intros Hrest. apply IH in Hrest. rewrite Hrest.
      now rewrite scan_targets_layer_events.
Qed.

(** The walk from layer [n - 1] down: [k] layers are read to their end,
    and either the walk ends there without error, having reached the
    bottom unless the counter is full, or the next layer fails. *)
Lemma walk_layers_layer_events files layers n st st' err :
  (n <= List.length layers)%nat ->
  walk_layers files layers n st = (st', err) ->
  exists k,
    (k <= n)%nat /\
    match err with
    | None =>
        layer_events (trace st')
        = (layer_events (trace st) ++ visited n k)%list /\
        (foundLen st' <> List.length files -> k = n)
    | Some _ =>
        exists j, n = (k + S j)%nat /\
          (layer_events (trace st')
           = (layer_events (trace st) ++ visited n k ++ [EvOpenErr j])%list \/
           layer_events (trace st')
           = (layer_events (trace st) ++ visited n k
              ++ [EvOpen j; EvNextErr j; EvClose j])%list)
    end.
Proof.
  revert st. induction n as [|i IH]; intros st Hn; simpl.
  - intros [= <- <-]. exists 0%nat. split; [lia|].
    split; [now rewrite app_nil_r | reflexivity].
  - destruct (Nat.eqb_spec (foundLen st) (List.length files)) as [Heq|Hne].
    { intros [= <- <-]. exists 0%nat. split; [lia|].
      split; [now rewrite app_nil_r | contradiction]. }
    destruct (layers !! i) as [layer|] eqn:Hi.
    2:{ apply lookup_ge_None in Hi. lia. }
    destruct (Uncompressed layer) as [stream|e0].
    2:{ intros [= <- <-]. exists 0%nat. split; [lia|]. exists i.
        split; [reflexivity|]. left. simpl. now rewrite layer_events_app. }
    destruct (read_entries _ _ _ _ _) as [st1 [e1|]] eqn:Hr;
      apply read_entries_layer_events in Hr; simpl in Hr;
      rewrite layer_events_app in Hr; simpl in Hr.
    + intros [= <- <-]. exists 0%nat. split; [lia|]. exists i.
      split; [reflexivity|]. right. simpl. rewrite Hr.
      now rewrite <- app_assoc.
    + intros Hw. apply IH in Hw; [|lia].
      destruct Hw as (k & Hk & Hshape). exists (S k). split; [lia|].
      assert (Hpre : layer_events (trace (log (EvClose i) st1))
                     = (layer_events (trace st) ++ [EvOpen i; EvClose i])%list).
      { simpl. rewrite layer_events_app, Hr. simpl.
        now rewrite app_nil_r, <- app_assoc. }
      rewrite Hpre in Hshape. clear Hpre Hr.
      destruct err as [e|].
      * destruct Hshape as (j & Hj & Hshape). exists j.
        split; [lia|]. simpl.
        destruct Hshape as [Hshape|Hshape]; [left|right];
          rewrite Hshape, <- app_assoc; reflexivity.
      * destruct Hshape as [Hshape Hfull]. split.
        -- rewrite Hshape, <- app_assoc. reflexivity.
        -- intros Hne'. f_equal. now apply Hfull.
Qed.

(** X2.  The layers are read from the top down, one at a time, and every
    reader that was opened is closed before the next one is opened or
    [Extract] returns.  Without an error the accesses to the layers are
    the open and close of the [k] topmost layers, in that order, and
    [k] is the number of layers unless the counter is full; with an
    error they are followed by the failed open of the next layer, or by
    its open, the failed decode and the close. *)
Theorem layers_read_top_down_and_closed :
  forall img platform dest env layers st,
    Layers img = Ok layers ->
    final (Extract img platform dest env) = Some st ->
    exists k,
      (k <= List.length layers)%nat /\
      (ret_err (Extract img platform dest env) = None ->
         layer_events (trace st) = visited (List.length layers) k /\
         (foundLen st <> List.length (Files platform) ->
          k = List.length layers)) /\
      (ret_err (Extract img platform dest env) <> None ->
         exists j, List.length layers = (k + S j)%nat /\
           (layer_events (trace st)
            = (visited (List.length layers) k ++ [EvOpenErr j])%list \/
            layer_events (trace st)
            = (visited (List.length layers) k
               ++ [EvOpen j; EvNextErr j; EvClose j])%list)).
Proof.
  intros img platform dest env layers st Hl.
  destruct (os_Create env dest) as [e|] eqn:Hc;
    [now rewrite (Extract_create_failed _ _ _ _ _ _ Hl Hc)|].
  rewrite (Extract_walk _ _ _ _ _ Hl Hc).
  destruct (walk_layers _ _ _ _) as [st1 err] eqn:Hw.
  apply walk_layers_layer_events in Hw; [|lia].
  destruct Hw as (k & Hk & Hshape). simpl in Hshape.
  destruct err as [e|]; intros [= <-]; exists k; (split; [exact Hk|]); simpl.
  - split; [discriminate|]. intros _. exact Hshape.
  - split; [intros _; exact Hshape | congruence].
Qed.

Lemma layers_read_top_down_and_closed_witness :
  exists k,
    (k <= 2)%nat /\
    layer_events
      (accesses (Extract scenario_image scenario_platform "plugins.tar.gz"
                         sound_env))
    = visited 2 k.
Proof.
  destruct (layers_read_top_down_and_closed scenario_image scenario_platform
              "plugins.tar.gz" sound_env
              [ layer_of [regular "usr/bin/foo" "older";
                          regular "usr/bin/bar" "bar"];
                layer_of [directory "etc/";
                          regular "usr/bin/foo" "foo, the new";
                          regular "usr/bin/bar" ""] ]
              ltac:(let r := eval vm_compute in
                      (default (init sound_env)
                         (final (Extract scenario_image scenario_platform
                                         "plugins.tar.gz" sound_env)))
                    in exact r))
    as (k & Hk & Hok & _).
  - reflexivity.
  - vm_compute. reflexivity.
  - exists k. split; [exact Hk|]. apply (Hok eq_refl).
Defined.

(** ** Provenance of the archive and of the result *)

Section Accounted.

Variable files : list FileLocation.

Lemma accounted_refl E st : accounted files E st st.
Proof.
  split; [done|]. split; [auto|]. exists []. now rewrite app_nil_r.
Qed.

Lemma accounted_trans E a b c :
  accounted files E a b -> accounted files E b c -> accounted files E a c.
Proof.
  intros (Hm1 & Hp1 & hs1 & Hh1 & HF1) (Hm2 & Hp2 & hs2 & Hh2 & HF2).
  split; [set_solver|]. split.
  - intros p Hp. destruct (Hp2 p Hp) as [Hb|Hnew]; [auto | now right].
  - exists (hs1 ++ hs2)%list. split; [now rewrite Hh2, Hh1, app_assoc|].
    apply Forall_app. split; [|exact HF2].
    eapply Forall_impl; [exact HF1|].
    intros h (en & t & ? & ? & ? & ? & ? & Hin). exists en, t.
    do 5 (split; [assumption|]). now apply Hm2.
Qed.

Lemma accounted_weaken (E E' : tar.Entry -> Prop) st st' :
  (forall en, E en -> E' en) ->
  accounted files E st st' -> accounted files E' st st'.
Proof.
  intros HE (Hm & Hp & hs & Hh & HF). split; [exact Hm|]. split.
  - intros p Hin. destruct (Hp p Hin) as [?|(en & t & ? & ?)]; [now left|].
    right. exists en, t. split; [now apply HE | assumption].
  - exists hs. split; [exact Hh|]. eapply Forall_impl; [exact HF|].
    intros h (en & t & ? & ?). exists en, t. split; [now apply HE | assumption].
Qed.

Lemma accounted_log_r E ev st st' :
  accounted files E st st' -> accounted files E st (log ev st').
Proof. intros H. exact H. Qed.

Lemma accounted_log_l E ev st st' :
  accounted files E st st' -> accounted files E (log ev st) st'.
Proof. intros H. exact H. Qed.

(** One write attempt for a matched target, whatever its outcome. *)
Lemma accounted_attempt en t w (hs : list tar.Header) st (bump : bool) :
  extractable (tar.header en) -> t ∈ files ->
  matches (cleaned (tar.header en)) t ->
  headers w = (headers (tw st) ++ hs)%list ->
  (hs = [] \/ hs = [cleaned (tar.header en)]) ->
  accounted files (eq en) st
    (if bump then incr_foundLen (set_tw w (mark (From t) st))
     else set_tw w (mark (From t) st)).
Proof.
  intros Hext Hin Hm Hh Hhs.
  assert (Hgoal : accounted files (eq en) st (set_tw w (mark (From t) st))).
  { split; [simpl; apply union_subseteq_r|]. split.
    - simpl. intros p Hp. apply elem_of_union in Hp as [Hp|Hp]; [|now left].
      apply elem_of_singleton in Hp. right. exists en, t. auto 10.
    - exists hs. split; [exact Hh|].
      destruct Hhs as [Hhs|Hhs]; subst hs; constructor; [|constructor].
      exists en, t. do 5 (split; [auto|]). simpl.
      apply elem_of_union_l, elem_of_singleton. reflexivity. }
  destruct bump; exact Hgoal.
Qed.

Lemma scan_targets_accounted en targets unread st :
  extractable (tar.header en) ->
  (forall t, t ∈ targets -> t ∈ files) ->
  accounted files (eq en) st
    (scan_targets targets (cleaned (tar.header en)) unread st).
Proof.
  intros Hext. revert unread st.
  induction targets as [|t targets IH]; intros unread st Hsub.
  - apply accounted_refl.
  - assert (Hsub' : forall t', t' ∈ targets -> t' ∈ files).
    { intros t' Ht'. apply Hsub. now apply list_elem_of_further. }
    assert (Ht : t ∈ files) by (apply Hsub, list_elem_of_here).
    destruct (String.eqb_spec (tar.Name (cleaned (tar.header en)))
                              (strings.TrimPrefix (From t) "/")) as [Hm|Hm];
      [|rewrite scan_targets_skip by exact Hm; now apply IH].
    rewrite scan_targets_match by exact Hm. unfold write_entry.
    destruct (tar.WriteHeader (tw st) (cleaned (tar.header en)))
      as [w1 [|]] eqn:Hw.
    + apply WriteHeader_ok_headers in Hw.
      destruct (tar.Copy w1 unread) as [[w2 unread'] [|]] eqn:Hc;
        apply Copy_headers in Hc; rewrite Hw in Hc.
      * apply (accounted_attempt en t w2 [cleaned (tar.header en)] st true);
          auto.
      * eapply accounted_trans; [|apply IH, Hsub']. apply accounted_log_r.
        apply (accounted_attempt en t w2 [cleaned (tar.header en)] st false);
          auto.
    + apply WriteHeader_err_archive in Hw.
      eapply accounted_trans; [|apply IH, Hsub']. apply accounted_log_r.
      apply (accounted_attempt en t w1 [] st false); auto.
      unfold headers. rewrite Hw. now rewrite app_nil_r.
Qed.

Lemma read_entries_accounted i es trailer st st' err :
  read_entries files i es trailer st = (st', err) ->
  accounted files (fun en => en ∈ es) st st'.
Proof.
  revert st. induction es as [|en es IH]; intros st.
  - simpl. destruct trailer; intros [= <- <-];
      repeat apply accounted_log_r; apply accounted_refl.
  - assert (Hrest : forall a b,
               accounted files (fun en' => en' ∈ es) a b ->
               accounted files (fun en' => en' ∈ en :: es) a b).
    { intros a b. apply accounted_weaken. intros en' Hin.
      now apply list_elem_of_further. }
    assert (Hhere : accounted files (fun en' => en' ∈ en :: es) st
                      (scan_targets files (cleaned (tar.header en))
                                    (tar.content en) st) \/
                    ~ extractable (tar.header en)).
    { destruct (Ascii.eqb_spec (tar.Typeflag (tar.header en)) tar.TypeDir);
        [right; intros [? _]; contradiction|].
      destruct (Z.eqb_spec (tar.Size (tar.header en)) 0);
        [right; intros [_ ?]; contradiction|].
      left. eapply accounted_weaken; [|apply scan_targets_accounted].
      - intros en' <-. apply list_elem_of_here.
      - split; assumption.
      - auto. }
    destruct (read_entries_cons files i en es trailer st)
      as [->|(Hext & _ & ->)]; [intros Hr; now apply Hrest, IH|].
    destruct Hhere as [Hhere|Hno]; [|contradiction].
    destruct (Nat.eqb _ _).
    + intros [= <- <-]. exact Hhere.
    + intros Hr. eapply accounted_trans; [exact Hhere|]. now apply Hrest, IH.
Qed.

Lemma walk_layers_accounted layers n st st' err :
  walk_layers files layers n st = (st', err) ->
  accounted files (provided_by layers) st st'.
Proof.
  revert st. induction n as [|i IH]; intros st; simpl.
  - intros [= <- <-]. apply accounted_refl.
  - destruct (Nat.eqb _ _); [intros [= <- <-]; apply accounted_refl|].
    destruct (layers !! i) as [layer|] eqn:Hi;
      [|intros [= <- <-]; apply accounted_refl].
    destruct (Uncompressed layer) as [stream|e0] eqn:Hu;
      [|intros [= <- <-]; apply accounted_log_r, accounted_refl].
    destruct (read_entries _ _ _ _ _) as [st1 [e1|]] eqn:Hr;
      apply read_entries_accounted in Hr;
      apply (accounted_weaken _ (provided_by layers)) in Hr;
      try (intros en Hen; exists i, layer, stream; auto).
    + intros [= <- <-]. exact Hr.
    + intros Hw. apply IH in Hw. eapply accounted_trans; [exact Hr|].
      exact Hw.
Qed.

End Accounted.

Lemma Extract_accounted img platform dest env st :
  final (Extract img platform dest env) = Some st ->
  exists layers,
    Layers img = Ok layers /\
    accounted (Files platform) (provided_by layers) (init env) st.
Proof.
  destruct (Layers img) as [layers|e] eqn:Hl;
    [|now rewrite (Extract_layers_failed _ _ _ _ _ Hl)].
  destruct (os_Create env dest) as [e|] eqn:Hc;
    [now rewrite (Extract_create_failed _ _ _ _ _ _ Hl Hc)|].
  rewrite (Extract_walk _ _ _ _ _ Hl Hc).
  destruct (walk_layers _ _ _ _) as [st1 err] eqn:Hw.
  apply walk_layers_accounted in Hw.
  exists layers. split; [reflexivity|].
  destruct err; injection H as <-; exact Hw.
Qed.

(** X3.  Nothing is written that was not asked for: the header of every
    member of the archive is the cleaned header of an entry of some layer
    of the image, neither a directory nor empty, whose cleaned name is
    the normalized path of a target of the caller; and when [Extract]
    returns a list, that target is in it. *)
Theorem archive_members_are_wanted_entries :
  forall img platform dest env hdr body,
    (hdr, body) ∈ written (Extract img platform dest env) ->
    exists layers en target,
      Layers img = Ok layers /\ provided_by layers en /\
      extractable (tar.header en) /\ hdr = cleaned (tar.header en) /\
      target ∈ Files platform /\ matches hdr target /\
      (ret_err (Extract img platform dest env) = None ->
       target ∈ ret_files (Extract img platform dest env)).
Proof.
  intros img platform dest env hdr body Hin. unfold written in Hin.
  destruct (final (Extract img platform dest env)) as [st|] eqn:Hst;
    [|now apply elem_of_nil in Hin].
  destruct (Extract_accounted _ _ _ _ _ Hst) as (layers & Hl & _ & _ & hs & Hh & HF).
  simpl in Hh. assert (Hhdr : hdr ∈ hs).
  { rewrite <- Hh. unfold headers. change hdr with ((hdr, body).1).
    now apply list_elem_of_fmap_2. }
  rewrite Forall_forall in HF.
  destruct (HF hdr Hhdr) as (en & t & Hen & Hext & -> & Ht & Hm & Hmark).
  exists layers, en, t. do 6 (split; [auto|]).
  intros Hok. destruct (Extract_no_error _ _ _ _ Hok) as (st' & Hrun & _).
  rewrite Hrun in Hst |- *. simpl in *. injection Hst as ->.
  apply elem_of_report. auto.
Qed.

Lemma archive_members_are_wanted_entries_witness :
  exists layers en target,
    Layers scenario_image = Ok layers /\ provided_by layers en /\
    extractable (tar.header en) /\
    tar.header (regular "usr/bin/bar" "bar") = cleaned (tar.header en) /\
    target ∈ Files scenario_platform /\
    matches (tar.header (regular "usr/bin/bar" "bar")) target /\
    (ret_err (Extract scenario_image scenario_platform "plugins.tar.gz" sound_env)
     = None ->
     target ∈ ret_files (Extract scenario_image scenario_platform
                                 "plugins.tar.gz" sound_env)).
Proof.
  apply (archive_members_are_wanted_entries scenario_image scenario_platform
           "plugins.tar.gz" sound_env
           (tar.header (regular "usr/bin/bar" "bar"))
           (tar.content (regular "usr/bin/bar" "bar"))).
  change ((tar.header (regular "usr/bin/bar" "bar"),
           tar.content (regular "usr/bin/bar" "bar"))
          ∈ [member_of (regular "usr/bin/foo" "foo, the new");
             member_of (regular "usr/bin/foo" "older");
             member_of (regular "usr/bin/bar" "bar")]).
  apply list_elem_of_further, list_elem_of_further, list_elem_of_here.
Defined.

(** X4.  Nothing is reported that the image does not hold: every entry
    of the returned list has the [From] of a target whose normalized path
    is the cleaned name of an entry of some layer that is neither a
    directory nor empty. *)
Theorem reported_targets_are_in_image :
  forall img platform dest env f,
    ret_err (Extract img platform dest env) = None ->
    f ∈ ret_files (Extract img platform dest env) ->
    f ∈ Files platform /\
    exists layers en target,
      Layers img = Ok layers /\ provided_by layers en /\
      extractable (tar.header en) /\ target ∈ Files platform /\
      From target = From f /\ matches (cleaned (tar.header en)) target.
Proof.
  intros img platform dest env f Hok Hin.
  destruct (Extract_no_error _ _ _ _ Hok) as (st & Hrun & _).
  assert (Hst : final (Extract img platform dest env) = Some st)
    by now rewrite Hrun.
  rewrite Hrun in Hin. simpl in Hin. apply elem_of_report in Hin as [Hf Hp].
  split; [exact Hf|].
  destruct (Extract_accounted _ _ _ _ _ Hst) as (layers & Hl & _ & Hprov & _).
  destruct (Hprov _ Hp) as [Hinit|(en & t & Hen & Hext & Ht & Hm & Heq)].
  - simpl in Hinit. now apply not_elem_of_empty in Hinit.
  - exists layers, en, t. auto 10.
Qed.

Lemma reported_targets_are_in_image_witness :
  exists layers en target,
    Layers scenario_image = Ok layers /\ provided_by layers en /\
    extractable (tar.header en) /\ target ∈ Files scenario_platform /\
    From target = "/usr/bin/bar" /\ matches (cleaned (tar.header en)) target.
Proof.
  apply (reported_targets_are_in_image scenario_image scenario_platform
           "plugins.tar.gz" sound_env (wanted "/usr/bin/bar")).
  - reflexivity.
  - change (wanted "/usr/bin/bar"
            ∈ [wanted "/usr/bin/foo"; wanted "/usr/bin/bar"]).
    apply list_elem_of_further, list_elem_of_here.
Defined.

(** ** Targets declared without a leading separator *)

Lemma write_entry_headers w hdr unread w' unread' ok :
  write_entry w hdr unread = (w', unread', ok) ->
  (headers w' = headers w /\ ok = false) \/
  headers w' = (headers w ++ [hdr])%list.
Proof.
  unfold write_entry.
  destruct (tar.WriteHeader w hdr) as [w1 [|]] eqn:Hw.
  - intros Hc. right. apply Copy_headers in Hc. rewrite Hc.
    now apply WriteHeader_ok_headers.
  - intros [= <- _ <-]. left. split; [|reflexivity].
    unfold headers. now rewrite (WriteHeader_err_archive _ _ _ Hw).
Qed.

(** With such targets at most one target matches an entry, and the scan
    is a single write attempt. *)
Lemma scan_targets_plain targets hdr unread st :
  NoDup (From <$> targets) ->
  Forall (fun t => strings.TrimPrefix (From t) "/" = From t) targets ->
  (scan_targets targets hdr unread st = st /\
   Forall (fun t => ~ matches hdr t) targets) \/
  (exists t w unread' ok,
      t ∈ targets /\ From t = tar.Name hdr /\
      write_entry (tw st) hdr unread = (w, unread', ok) /\
      scan_targets targets hdr unread st
      = if ok then incr_foundLen (set_tw w (mark (From t) st))
        else log (EvWriteErr (From t)) (set_tw w (mark (From t) st))).
Proof.
  induction targets as [|t targets IH]; intros Hnd Hplain.
  - left. split; [reflexivity | constructor].
  - rewrite fmap_cons in Hnd. apply NoDup_cons in Hnd as [Hfresh Hnd].
    apply Forall_cons in Hplain as [Ht Hplain].
    destruct (String.eqb_spec (tar.Name hdr) (strings.TrimPrefix (From t) "/"))
      as [Hm|Hm].
    + right. rewrite scan_targets_match by exact Hm.
      destruct (write_entry (tw st) hdr unread) as [[w unread'] ok] eqn:Hw.
      exists t, w, unread', ok. split; [apply list_elem_of_here|].
      split; [now rewrite Hm, Ht|]. split; [reflexivity|].
      destruct ok; [reflexivity|].
      apply scan_targets_no_match. rewrite Forall_forall in Hplain |- *.
      intros t' Ht' Hm'. apply Hfresh. apply list_elem_of_fmap.
      exists t'. split; [|exact Ht'].
      rewrite <- Ht, <- Hm, Hm'. now apply Hplain.
    + rewrite scan_targets_skip by exact Hm.
      destruct (IH Hnd Hplain) as [[Hsame Hnone]|(t' & w & u & ok & Hin & Hrest)].
      * left. split; [exact Hsame | now constructor].
      * right. exists t', w, u, ok. split; [now apply list_elem_of_further|].
        exact Hrest.
Qed.

Lemma tidy_scan_targets files hdr unread st :
  plain_targets files ->
  tar.Name hdr ∉ processedTargets st ->
  tidy st -> tidy (scan_targets files hdr unread st).
Proof.
  intros [Hnd Hplain] Hnew (Hcount & Hnames & Hdup).
  destruct (scan_targets_plain files hdr unread st Hnd Hplain)
    as [[-> _]|(t & w & u & ok & _ & Ht & Hw & ->)]; [now repeat split|].
  assert (Hsize : size ({[From t]} ∪ processedTargets st)
                  = S (size (processedTargets st))).
  { rewrite size_union by (rewrite Ht; set_solver).
    now rewrite size_singleton. }
  assert (Htidy : (forall h, h ∈ headers w ->
                     tar.Name h ∈ {[From t]} ∪ processedTargets st) /\
                  NoDup (tar.Name <$> headers w)).
  { apply write_entry_headers in Hw as [[-> _]| ->].
    - split; [|exact Hdup]. intros h Hh. apply elem_of_union_r. now apply Hnames.
    - split.
      + intros h Hh. apply elem_of_app in Hh as [Hh|Hh].
        * apply elem_of_union_r. now apply Hnames.
        * apply list_elem_of_singleton in Hh as ->.
          apply elem_of_union_l, elem_of_singleton. now rewrite Ht.
      + rewrite fmap_app. apply NoDup_app. split; [exact Hdup|]. split.
        * intros n Hn Hn'. apply list_elem_of_singleton in Hn' as ->.
          apply list_elem_of_fmap in Hn as (h & Heq & Hh).
          apply Hnew. rewrite Heq. now apply Hnames.
        * apply NoDup_singleton. }
  destruct Htidy as [Hnames' Hdup'].
  destruct ok; (split; [simpl; lia|]); split; assumption.
Qed.

Lemma tidy_log ev st : tidy st -> tidy (log ev st).
Proof. intros H. exact H. Qed.

Lemma tidy_read_entries files i es trailer st st' err :
  plain_targets files ->
  read_entries files i es trailer st = (st', err) ->
  tidy st -> tidy st'.
Proof.
  intros Hplain. revert st. induction es as [|en es IH]; intros st.
  - simpl. destruct trailer; intros [= <- <-]; auto.
  - destruct (read_entries_cons files i en es trailer st)
      as [->|(_ & Hnew & ->)]; [apply IH|].
    intros Hr Htidy.
    apply (tidy_scan_targets files (cleaned (tar.header en)) (tar.content en))
      in Htidy; [|assumption..].
    destruct (Nat.eqb _ _); [now injection Hr as <- <-|].
    eapply IH; eassumption.
Qed.

Lemma tidy_walk_layers files layers n st st' err :
  plain_targets files ->
  walk_layers files layers n st = (st', err) ->
  tidy st -> tidy st'.
Proof.
  intros Hplain. revert st. induction n as [|i IH]; intros st; simpl.
  - now intros [= <- <-].
  - destruct (Nat.eqb _ _); [now intros [= <- <-]|].
    destruct (layers !! i) as [layer|]; [|now intros [= <- <-]].
    destruct (Uncompressed layer) as [stream|e0]; [|now intros [= <- <-]].
    destruct (read_entries _ _ _ _ _) as [st1 [e1|]] eqn:Hr; intros Hw Htidy;
      apply (tidy_log (EvOpen i)) in Htidy;
      apply (tidy_read_entries _ _ _ _ _ _ _ Hplain Hr) in Htidy.
    + now injection Hw as <- <-.
    + eapply IH; [exact Hw|]. now apply tidy_log.
Qed.

Lemma tidy_init env : tidy (init env).
Proof.
  split; [simpl; lia|]. split.
  - intros h Hh. now apply elem_of_nil in Hh.
  - constructor.
Qed.

Lemma Extract_tidy img platform dest env st :
  plain_targets (Files platform) ->
  final (Extract img platform dest env) = Some st -> tidy st.
Proof.
  intros Hplain.
  destruct (Layers img) as [layers|e] eqn:Hl;
    [|now rewrite (Extract_layers_failed _ _ _ _ _ Hl)].
  destruct (os_Create env dest) as [e|] eqn:Hc;
    [now rewrite (Extract_create_failed _ _ _ _ _ _ Hl Hc)|].
  rewrite (Extract_walk _ _ _ _ _ Hl Hc).
  destruct (walk_layers _ _ _ _) as [st1 err] eqn:Hw.
  apply (tidy_walk_layers _ _ _ _ _ _ Hplain) in Hw; [|apply tidy_init].
  destruct err; now intros [= <-].
Qed.

(** X5.  When every target is declared without a leading separator and
    no path is declared twice, the archive holds each path at most once,
    whatever the writes do: an entry whose name is already resolved is
    never written again. *)
Theorem plain_targets_written_once :
  forall img platform dest env,
    plain_targets (Files platform) ->
    NoDup ((fun m => tar.Name m.1) <$> written (Extract img platform dest env)).
Proof.
  intros img platform dest env Hplain. unfold written.
  destruct (final (Extract img platform dest env)) as [st|] eqn:Hst;
    [|constructor].
  destruct (Extract_tidy _ _ _ _ _ Hplain Hst) as (_ & _ & Hdup).
  unfold headers in Hdup. now rewrite <- list_fmap_compose in Hdup.
Qed.

Lemma plain_overlay_targets : plain_targets (Files plain_overlay_platform).
Proof.
  split.
  - apply NoDup_cons. split.
    + intros H. apply list_elem_of_singleton in H. discriminate H.
    + apply NoDup_singleton.
  - repeat constructor.
Qed.

Lemma plain_targets_written_once_witness :
  NoDup ((fun m => tar.Name m.1)
           <$> written (Extract overlay_image plain_overlay_platform
                                "plugins.tar.gz" sound_env)).
Proof.
  apply plain_targets_written_once. exact plain_overlay_targets.
Defined.

(** The scan marks a target whenever one matches. *)
Lemma scan_targets_marks targets hdr unread st :
  Exists (matches hdr) targets ->
  exists t, t ∈ targets /\ matches hdr t /\
            From t ∈ processedTargets (scan_targets targets hdr unread st).
Proof.
  intros Hex. revert unread st.
  induction targets as [|t targets IH]; intros unread st.
  - now apply Exists_nil in Hex.
  - destruct (String.eqb_spec (tar.Name hdr) (strings.TrimPrefix (From t) "/"))
      as [Hm|Hm].
    + exists t. split; [apply list_elem_of_here|]. split; [exact Hm|].
      pose proof (scan_targets_extends (fun _ => True) targets hdr) as Hmono.
      rewrite scan_targets_match by exact Hm.
      destruct (write_entry (tw st) hdr unread) as [[w unread'] [|]].
      * simpl. apply elem_of_union_l, elem_of_singleton. reflexivity.
      * apply (Hmono unread' _ I). simpl.
        apply elem_of_union_l, elem_of_singleton. reflexivity.
    + rewrite scan_targets_skip by exact Hm.
      apply Exists_cons in Hex as [Hex|Hex]; [contradiction|].
      destruct (IH Hex unread st) as (t' & Hin & Hrest).
      exists t'. split; [now apply list_elem_of_further | exact Hrest].
Qed.

(** An entry that the loop passes over is not extractable, or its name is
    resolved already. *)
Lemma read_entries_cons_skipped files i en es trailer st :
  (read_entries files i (en :: es) trailer st
   = read_entries files i es trailer st /\
   (extractable (tar.header en) ->
    tar.Name (cleaned (tar.header en)) ∈ processedTargets st)) \/
  (extractable (tar.header en) /\
   (tar.Name (cleaned (tar.header en)) ∉ processedTargets st) /\
   read_entries files i (en :: es) trailer st
   = if (foundLen (scan_targets files (cleaned (tar.header en))
                                (tar.content en) st)
         =? List.length files)%nat
     then (scan_targets files (cleaned (tar.header en)) (tar.content en) st, None)
     else read_entries files i es trailer
            (scan_targets files (cleaned (tar.header en)) (tar.content en) st)).
Proof.
  destruct (Ascii.eqb_spec (tar.Typeflag (tar.header en)) tar.TypeDir) as [Hd|Hd].
  { left. split; [simpl; now rewrite Hd | intros [? _]; contradiction]. }
  destruct (Z.eqb_spec (tar.Size (tar.header en)) 0) as [Hz|Hz].
  { left. split; [|intros [_ ?]; contradiction].
    simpl. rewrite Hz. destruct (Ascii.eqb _ _); reflexivity. }
  destruct (decide (tar.Name (cleaned (tar.header en)) ∈ processedTargets st))
    as [Hin|Hin].
  { left. split; [|intros _; exact Hin].
    simpl. destruct (Ascii.eqb _ _); [reflexivity|].
    destruct (Z.eqb _ _); [reflexivity|].
    destruct (Nat.eqb _ _); [reflexivity|].
    unfold cleaned in Hin.
    destruct (decide _); [reflexivity | contradiction]. }
  right. split; [split; assumption|]. split; [assumption|].
  apply read_entries_scan; [split|]; assumption.
Qed.

(** A loop over the entries that ends with a counter that is not full
    has resolved every target that one of the entries provides. *)
Lemma read_entries_visits files i es trailer st st' err :
  Forall (fun t => strings.TrimPrefix (From t) "/" = From t) files ->
  read_entries files i es trailer st = (st', err) ->
  foundLen st' <> List.length files ->
  forall en t,
    en ∈ es -> extractable (tar.header en) -> t ∈ files ->
    matches (cleaned (tar.header en)) t ->
    From t ∈ processedTargets st'.
Proof.
  intros Hplain. rewrite Forall_forall in Hplain.
  revert st. induction es as [|en es IH]; intros st Hr Hfull en' t Hin Hext Ht Hm.
  - now apply elem_of_nil in Hin.
  - assert (Hname : From t = tar.Name (cleaned (tar.header en'))).
    { rewrite Hm. symmetry. now apply Hplain. }
    destruct (read_entries_cons_skipped files i en es trailer st)
      as [[Heq Hseen]|(_ & _ & Heq)]; rewrite Heq in Hr.
    + apply elem_of_cons in Hin as [->|Hin]; [|eapply IH; eassumption].
      apply (read_entries_accounted _ _ _ _ _ _ _ Hr).
      rewrite Hname. now apply Hseen.
    + destruct (Nat.eqb_spec
                  (foundLen (scan_targets files (cleaned (tar.header en))
                                          (tar.content en) st))
                  (List.length files)) as [Hstop|_].
      { injection Hr as <- <-. contradiction. }
      apply elem_of_cons in Hin as [->|Hin]; [|eapply IH; eassumption].
      apply (read_entries_accounted _ _ _ _ _ _ _ Hr).
      destruct (scan_targets_marks files (cleaned (tar.header en))
                  (tar.content en) st) as (t' & Ht' & Hm' & Hmark).
      { apply Exists_exists. exists t. split; [exact Ht | exact Hm]. }
      replace (From t) with (From t'); [exact Hmark|].
      rewrite <- (Hplain t'), <- (Hplain t) by assumption.
      now rewrite <- Hm, <- Hm'.
Qed.

Lemma walk_layers_visits files layers n st st' :
  Forall (fun t => strings.TrimPrefix (From t) "/" = From t) files ->
  (n <= List.length layers)%nat ->
  walk_layers files layers n st = (st', None) ->
  foundLen st' <> List.length files ->
  forall i layer stream en t,
    (i < n)%nat -> layers !! i = Some layer ->
    Uncompressed layer = Ok stream -> en ∈ entries stream ->
    extractable (tar.header en) -> t ∈ files ->
    matches (cleaned (tar.header en)) t ->
    From t ∈ processedTargets st'.
Proof.
  intros Hplain. revert st.
  induction n as [|j IH];
    intros st Hn Hw Hfull i layer stream en t Hi Hl Hu Hin Hext Ht Hm; [lia|].
  simpl in Hw.
  destruct (Nat.eqb_spec (foundLen st) (List.length files)) as [Heq|_];
    [injection Hw as <-; contradiction|].
  destruct (layers !! j) as [layer'|] eqn:Hj.
  2:{ apply lookup_ge_None in Hj. lia. }
  destruct (Uncompressed layer') as [stream'|e0] eqn:Hu'; [|discriminate].
  destruct (read_entries _ _ _ _ _) as [st1 [e1|]] eqn:Hr; [discriminate|].
  destruct (decide (i = j)) as [->|Hne].
  - rewrite Hl in Hj. injection Hj as <-. rewrite Hu in Hu'.
    injection Hu' as <-.
    apply (walk_layers_accounted _ _ _ _ _ _ Hw). simpl.
    assert (Hnot : foundLen st1 <> List.length files).
    { intros Heq. rewrite walk_layers_done in Hw by exact Heq.
      injection Hw as <-. contradiction. }
    eapply (read_entries_visits _ _ _ _ _ _ _ Hplain Hr Hnot); eassumption.
  - eapply IH; [| exact Hw | exact Hfull | | exact Hl | exact Hu | exact Hin
               | exact Hext | exact Ht | exact Hm]; lia.
Qed.

(** X6.  When every target is declared without a leading separator and
    no path is declared twice, a run that returns a list reports every
    target that some layer of the image provides as a non-empty entry
    that is not a directory, whatever the writes do. *)
Theorem plain_targets_all_found :
  forall img platform dest env layers en t,
    plain_targets (Files platform) ->
    Layers img = Ok layers ->
    ret_err (Extract img platform dest env) = None ->
    provided_by layers en ->
    extractable (tar.header en) ->
    t ∈ Files platform ->
    matches (cleaned (tar.header en)) t ->
    t ∈ ret_files (Extract img platform dest env).
Proof.
  intros img platform dest env layers en t Hplain Hl Hok
         (i & layer & stream & Hi & Hu & Hen) Hext Ht Hm.
  destruct (os_Create env dest) as [e|] eqn:Hc;
    [now rewrite (Extract_create_failed _ _ _ _ _ _ Hl Hc) in Hok|].
  rewrite (Extract_walk _ _ _ _ _ Hl Hc) in Hok |- *.
  destruct (walk_layers _ _ _ _) as [st [e|]] eqn:Hw; [discriminate|].
  simpl. apply elem_of_report. split; [exact Ht|].
  destruct (Nat.eq_dec (foundLen st) (List.length (Files platform))) as [Hfull|Hnot].
  - pose proof (tidy_walk_layers _ _ _ _ _ _ Hplain Hw (tidy_init env))
      as (Hcount & _ & _).
    pose proof (walk_layers_accounted _ _ _ _ _ _ Hw) as (_ & Hprov & _).
    assert (Hsub : processedTargets st
                   ⊆ list_to_set (From <$> Files platform)).
    { intros p Hp. apply elem_of_list_to_set.
      destruct (Hprov p Hp) as [Hinit|(_ & t' & _ & _ & Ht' & _ & ->)].
      - simpl in Hinit. now apply not_elem_of_empty in Hinit.
      - apply list_elem_of_fmap. now exists t'. }
    assert (Hall : processedTargets st = list_to_set (From <$> Files platform)).
    { apply set_subseteq_size_eq; [exact Hsub|].
      rewrite size_list_to_set by apply Hplain.
      rewrite length_fmap. lia. }
    rewrite Hall. apply elem_of_list_to_set, list_elem_of_fmap. now exists t.
  - apply (walk_layers_visits _ _ _ _ _ (proj2 Hplain) (Nat.le_refl _) Hw Hnot
             i layer stream en t); try assumption.
    now apply lookup_lt_Some in Hi.
Qed.

Lemma plain_targets_all_found_witness :
  wanted "a" ∈ ret_files (Extract overlay_image plain_overlay_platform
                                  "plugins.tar.gz" sound_env).
Proof.
  apply (plain_targets_all_found overlay_image plain_overlay_platform
           "plugins.tar.gz" sound_env
           [layer_of [regular "a" "bottom"]; layer_of [regular "a" "top"]]
           (regular "a" "bottom") (wanted "a")).
  - exact plain_overlay_targets.
  - reflexivity.
  - reflexivity.
  - exists 0%nat, (layer_of [regular "a" "bottom"]),
      {| entries := [regular "a" "bottom"]; trailer := None |}.
    split; [reflexivity|]. split; [reflexivity | apply list_elem_of_here].
  - split; discriminate.
  - apply list_elem_of_here.
  - reflexivity.
Defined.

(** ** The archive is the overlay of the layers *)

(** Equations between unions of resolved sets. *)
Ltac solve_union :=
  unfold member_names; simpl; apply set_eq; intros ?;
  rewrite ?elem_of_union, ?elem_of_empty, ?elem_of_singleton; tauto.

Lemma write_entry_sound w hdr unread :
  Forall (fun o => o = tar.WriteOk) (tar.script w) ->
  exists w', write_entry w hdr unread = (w', [], true) /\
             tar.archive w' = (tar.archive w ++ [(hdr, unread)])%list /\
             Forall (fun o => o = tar.WriteOk) (tar.script w').
Proof.
  intros Hs. unfold write_entry, tar.WriteHeader, tar.Copy, tar.next_outcome.
  pose proof (fun a => append_body_last a hdr [] unread) as Hlast.
  simpl in Hlast.
  destruct (tar.script w) as [|o1 s]; simpl.
  - eexists. split; [reflexivity|]. simpl. split; [apply Hlast | constructor].
  - apply Forall_cons in Hs as [-> Hs]. destruct s as [|o2 s]; simpl.
    + eexists. split; [reflexivity|]. simpl. split; [apply Hlast | constructor].
    + apply Forall_cons in Hs as [-> Hs].
      eexists. split; [reflexivity|]. simpl. split; [apply Hlast | exact Hs].
Qed.

Lemma wanted_name_spec files name :
  wanted_name files name = true <-> Exists (fun t => name = strings.TrimPrefix (From t) "/") files.
Proof.
  unfold wanted_name. rewrite existsb_exists, Exists_exists. split.
  - intros (t & Hin & Heq). exists t. split; [now apply list_elem_of_In|].
    now apply String.eqb_eq.
  - intros (t & Hin & Heq). exists t. split; [now apply list_elem_of_In|].
    now apply String.eqb_eq.
Qed.

(** Once every target path is resolved the overlay takes nothing more. *)
Lemma overlay_saturated files seen es :
  NoDup (From <$> files) ->
  Forall (fun t => strings.TrimPrefix (From t) "/" = From t) files ->
  seen ⊆ list_to_set (From <$> files) ->
  size seen = List.length files ->
  overlay files seen es = [].
Proof.
  intros Hnd Hplain Hsub Hsize.
  assert (Hall : seen = list_to_set (From <$> files)).
  { apply set_subseteq_size_eq; [exact Hsub|].
    rewrite size_list_to_set by exact Hnd. rewrite length_fmap. lia. }
  rewrite Forall_forall in Hplain.
  induction es as [|en es IH]; [reflexivity|]. cbn [overlay].
  replace (_ && _ && _ && _) with false; [exact IH|]. symmetry.
  destruct (wanted_name files (tar.Name (cleaned (tar.header en)))) eqn:Hw;
    [|now rewrite andb_false_r].
  apply wanted_name_spec, Exists_exists in Hw as (t & Ht & Hname).
  apply andb_false_iff. right. apply bool_decide_eq_false_2.
  intros Hnot. apply Hnot. rewrite Hname, Hall, (Hplain t Ht).
  apply elem_of_list_to_set, list_elem_of_fmap. now exists t.
Qed.

Lemma overlay_app files seen es1 es2 :
  overlay files seen (es1 ++ es2)
  = (overlay files seen es1
     ++ overlay files (seen ∪ list_to_set (member_names (overlay files seen es1)))
                es2)%list.
Proof.
  revert seen. induction es1 as [|en es1 IH]; intros seen.
  - simpl. f_equal. solve_union.
  - rewrite <- app_comm_cons. cbn [overlay].
    destruct (_ && _ && _ && _).
    + rewrite IH. simpl. do 3 f_equal. solve_union.
    + apply IH.
Qed.

Section Overlay.

Variable files : list FileLocation.
Hypothesis files_plain : plain_targets files.

Lemma settled_saturated st es :
  settled files st -> foundLen st = List.length files ->
  overlay files (processedTargets st) es = [].
Proof.
  intros (Hcount & Hsub & _) Hfull.
  apply overlay_saturated; try apply files_plain; [exact Hsub | lia].
Qed.

(** One entry: the loop does to the state what the overlay rule says. *)
Lemma settled_entry en st :
  settled files st ->
  extractable (tar.header en) ->
  tar.Name (cleaned (tar.header en)) ∉ processedTargets st ->
  settled files (scan_targets files (cleaned (tar.header en)) (tar.content en) st) /\
  tar.archive (tw (scan_targets files (cleaned (tar.header en))
                                (tar.content en) st))
  = (tar.archive (tw st) ++ overlay files (processedTargets st) [en])%list /\
  processedTargets (scan_targets files (cleaned (tar.header en))
                                 (tar.content en) st)
  = processedTargets st
    ∪ list_to_set (member_names (overlay files (processedTargets st) [en])).
Proof.
  intros (Hcount & Hsub & Hs) [Hdir Hsize] Hnew.
  destruct files_plain as [Hnd Hplain].
  simpl overlay.
  destruct (Ascii.eqb_spec (tar.Typeflag (tar.header en)) tar.TypeDir);
    [contradiction|].
  destruct (Z.eqb_spec (tar.Size (tar.header en)) 0); [contradiction|].
  rewrite (bool_decide_eq_true_2 _ Hnew). simpl negb. simpl andb.
  rewrite andb_true_r.
  destruct (scan_targets_plain files (cleaned (tar.header en)) (tar.content en)
              st Hnd Hplain)
    as [[-> Hnone]|(t & w & u & ok & Ht & Hname & Hw & ->)].
  - replace (wanted_name files _) with false.
    + split; [now repeat split|]. split; [now rewrite app_nil_r|].
      solve_union.
    + symmetry. apply not_true_is_false. intros Hw.
      apply wanted_name_spec, Exists_exists in Hw as (t & Ht & Hm).
      rewrite Forall_forall in Hnone. exact (Hnone t Ht Hm).
  - replace (wanted_name files _) with true.
    2:{ symmetry. apply wanted_name_spec, Exists_exists. exists t.
        split; [exact Ht|]. rewrite Forall_forall in Hplain.
        now rewrite (Hplain t Ht), Hname. }
    destruct (write_entry_sound (tw st) (cleaned (tar.header en))
                (tar.content en) Hs) as (w' & Hw' & Harch & Hs').
    rewrite Hw' in Hw. injection Hw as <- <- <-.
    rewrite Hname. split; [|split].
    + split; [|split]; simpl.
      * rewrite size_union by (apply disjoint_singleton_l; exact Hnew).
        rewrite size_singleton. lia.
      * apply union_least; [|exact Hsub].
        apply singleton_subseteq_l, elem_of_list_to_set, list_elem_of_fmap.
        exists t. split; [now rewrite Hname | exact Ht].
      * exact Hs'.
    + simpl. exact Harch.
    + solve_union.
Qed.

Lemma read_entries_overlay i es st :
  settled files st ->
  exists st',
    read_entries files i es None st = (st', None) /\
    settled files st' /\
    tar.archive (tw st')
    = (tar.archive (tw st) ++ overlay files (processedTargets st) es)%list /\
    processedTargets st'
    = processedTargets st
      ∪ list_to_set (member_names (overlay files (processedTargets st) es)) /\
    layer_events (trace st') = layer_events (trace st).
Proof.
  revert st. induction es as [|en es IH]; intros st Hst.
  - exists st. split; [reflexivity|]. split; [exact Hst|].
    split; [now rewrite app_nil_r|]. split; [|reflexivity].
    solve_union.
  - destruct (read_entries_cons_skipped files i en es None st)
      as [[-> Hseen]|(Hext & Hnew & ->)].
    + destruct (IH st Hst) as (st' & Hr & Hst' & Harch & Hproc & Htr).
      exists st'. split; [exact Hr|]. split; [exact Hst'|].
      assert (Hskip : overlay files (processedTargets st) (en :: es)
                      = overlay files (processedTargets st) es).
      { simpl.
        destruct (Ascii.eqb_spec (tar.Typeflag (tar.header en)) tar.TypeDir);
          [reflexivity|].
        destruct (Z.eqb_spec (tar.Size (tar.header en)) 0); [reflexivity|].
        rewrite bool_decide_eq_false_2; [now rewrite andb_false_r|].
        intros Hnot. apply Hnot, Hseen. split; assumption. }
      rewrite Hskip. auto.
    + destruct (settled_entry en st Hst Hext Hnew) as (Hst1 & Harch1 & Hproc1).
      change (en :: es) with ([en] ++ es)%list. rewrite overlay_app.
      rewrite <- Hproc1.
      destruct (Nat.eqb_spec
                  (foundLen (scan_targets files (cleaned (tar.header en))
                                          (tar.content en) st))
                  (List.length files)) as [Hfull|_].
      * eexists. split; [reflexivity|]. split; [exact Hst1|].
        rewrite (settled_saturated _ es Hst1 Hfull).
        rewrite app_nil_r, scan_targets_layer_events.
        split; [exact Harch1|]. split; [exact Hproc1 | reflexivity].
      * destruct (IH _ Hst1) as (st' & Hr & Hst' & Harch & Hproc & Htr).
        exists st'. split; [exact Hr|]. split; [exact Hst'|].
        rewrite Harch, Harch1, <- app_assoc. split; [reflexivity|].
        rewrite Htr, scan_targets_layer_events. split; [|reflexivity].
        rewrite Hproc, Hproc1. unfold member_names. rewrite fmap_app.
        rewrite list_to_set_app_L. solve_union.
Qed.

Lemma walk_order_take_S layers i layer :
  layers !! i = Some layer ->
  walk_order (take (S i) layers)
  = (stream_entries layer ++ walk_order (take i layers))%list.
Proof.
  intros Hi. unfold walk_order. rewrite (take_S_r _ _ _ Hi).
  rewrite rev_app_distr. reflexivity.
Qed.

Lemma walk_layers_overlay layers n st :
  Forall (fun layer => exists es,
              Uncompressed layer = Ok {| entries := es; trailer := None |})
         layers ->
  (n <= List.length layers)%nat ->
  settled files st ->
  exists st',
    walk_layers files layers n st = (st', None) /\
    settled files st' /\
    tar.archive (tw st')
    = (tar.archive (tw st)
       ++ overlay files (processedTargets st) (walk_order (take n layers)))%list /\
    processedTargets st'
    = processedTargets st
      ∪ list_to_set (member_names
                       (overlay files (processedTargets st)
                                (walk_order (take n layers)))).
Proof.
  intros Hlayers. rewrite Forall_forall in Hlayers.
  revert st. induction n as [|i IH]; intros st Hn Hst.
  - exists st. split; [reflexivity|]. split; [exact Hst|].
    rewrite take_0. unfold walk_order, member_names. simpl.
    split; [now rewrite app_nil_r | solve_union].
  - simpl walk_layers.
    destruct (Nat.eqb_spec (foundLen st) (List.length files)) as [Hfull|_].
    { exists st. split; [reflexivity|]. split; [exact Hst|].
      rewrite (settled_saturated st _ Hst Hfull).
      unfold member_names. simpl. split; [now rewrite app_nil_r | solve_union]. }
    destruct (layers !! i) as [layer|] eqn:Hi.
    2:{ apply lookup_ge_None in Hi. lia. }
    destruct (Hlayers layer) as (es & Hu);
      [eapply list_elem_of_lookup_2; exact Hi|].
    rewrite Hu. simpl entries. simpl trailer.
    rewrite (walk_order_take_S _ _ _ Hi). unfold stream_entries.
    rewrite Hu. simpl entries.
    destruct (read_entries_overlay i es (log (EvOpen i) st) Hst)
      as (st1 & -> & Hst1 & Harch1 & Hproc1 & _).
    destruct (IH (log (EvClose i) st1)) as (st' & -> & Hst' & Harch & Hproc);
      [lia | exact Hst1|].
    exists st'. split; [reflexivity|]. split; [exact Hst'|].
    simpl in Harch, Hproc, Harch1, Hproc1. rewrite overlay_app, <- Hproc1.
    rewrite Harch, Harch1, <- app_assoc. split; [reflexivity|].
    rewrite Hproc, Hproc1. unfold member_names. rewrite fmap_app.
    rewrite list_to_set_app_L. solve_union.
Qed.

End Overlay.

(** X7.  When every target is declared without a leading separator and
    no path is declared twice, every layer decodes to its end and every
    write succeeds, [Extract] returns no error, the archive is the
    overlay of the layers (for each wanted path the first entry in the
    order of the walk that is neither a directory nor empty, with its
    whole content, in that order), and the returned list is the targets
    whose path is among the names of the archive. *)
Theorem plain_targets_archive_is_overlay :
  forall img platform dest env layers,
    plain_targets (Files platform) ->
    Layers img = Ok layers ->
    Forall (fun layer => exists es,
                Uncompressed layer = Ok {| entries := es; trailer := None |})
           layers ->
    os_Create env dest = None ->
    Forall (fun o => o = tar.WriteOk) (faults env) ->
    ret_err (Extract img platform dest env) = None /\
    written (Extract img platform dest env)
    = overlay (Files platform) ∅ (walk_order layers) /\
    ret_files (Extract img platform dest env)
    = filter (fun f => From f ∈ member_names
                                  (overlay (Files platform) ∅ (walk_order layers)))
             (Files platform).
Proof.
  intros img platform dest env layers Hplain Hl Hlayers Hc Hs.
  rewrite (Extract_walk _ _ _ _ _ Hl Hc).
  destruct (walk_layers_overlay (Files platform) Hplain layers
              (List.length layers) (init env) Hlayers (Nat.le_refl _))
    as (st & -> & _ & Harch & Hproc).
  { split; [reflexivity|]. split; [apply empty_subseteq | exact Hs]. }
  rewrite firstn_all in Harch, Hproc. simpl in Harch, Hproc.
  unfold written. simpl. split; [reflexivity|]. split; [exact Harch|].
  rewrite report_filter, Hproc. apply list_filter_iff. intros f.
  rewrite elem_of_union, elem_of_list_to_set. split; [|auto].
  intros [Hempty|Hin]; [now apply not_elem_of_empty in Hempty | exact Hin].
Qed.

Lemma plain_targets_archive_is_overlay_witness :
  written (Extract overlay_image plain_overlay_platform "plugins.tar.gz" sound_env)
  = [member_of (regular "a" "top")].
Proof.
  refine (eq_trans
            (proj1 (proj2
               (plain_targets_archive_is_overlay overlay_image
                  plain_overlay_platform "plugins.tar.gz" sound_env
                  [layer_of [regular "a" "bottom"]; layer_of [regular "a" "top"]]
                  plain_overlay_targets eq_refl _ eq_refl _))) _).
  - repeat constructor; eexists; reflexivity.
  - constructor.
  - vm_compute. reflexivity.
Defined.

(** ** Runs in which every write succeeds *)











(** ** The destination label *)

Lemma scan_targets_From targets targets' hdr unread st :
  From <$> targets = From <$> targets' ->
  scan_targets targets hdr unread st = scan_targets targets' hdr unread st.
Proof.
  revert targets' unread st.
  induction targets as [|t targets IH]; intros [|t' targets'] unread st Heq;
    try discriminate; [reflexivity|].
  rewrite !fmap_cons in Heq. injection Heq as Ht Heq. simpl. rewrite Ht.
  destruct (String.eqb _ _); [|now apply IH].
  destruct (tar.WriteHeader _ hdr) as [w1 [|]].
  - destruct (tar.Copy w1 unread) as [[w2 unread'] [|]]; [reflexivity|].
    now apply IH.
  - now apply IH.
Qed.

Lemma read_entries_From files files' i es trailer st :
  From <$> files = From <$> files' ->
  read_entries files i es trailer st = read_entries files' i es trailer st.
Proof.
  intros Heq.
  assert (Hlen : List.length files = List.length files').
  { rewrite <- (length_fmap From files), Heq. apply length_fmap. }
  revert st. induction es as [|en es IH]; intros st; [reflexivity|].
  simpl. rewrite !IH, Hlen.
  rewrite (scan_targets_From files files' _ _ _ Heq). reflexivity.
Qed.

Lemma walk_layers_From files files' layers n st :
  From <$> files = From <$> files' ->
  walk_layers files layers n st = walk_layers files' layers n st.
Proof.
  intros Heq.
  assert (Hlen : List.length files = List.length files').
  { rewrite <- (length_fmap From files), Heq. apply length_fmap. }
  revert st. induction n as [|i IH]; intros st; [reflexivity|].
  simpl. rewrite Hlen.
  destruct (Nat.eqb _ _); [reflexivity|].
  destruct (layers !! i) as [layer|]; [|reflexivity].
  destruct (Uncompressed layer) as [stream|e0]; [|reflexivity].
  rewrite (read_entries_From files files' _ _ _ _ Heq).
  destruct (read_entries _ _ _ _ _) as [st1 [e1|]]; [reflexivity | apply IH].
Qed.

Lemma report_From files processed :
  From <$> report files processed
  = filter (fun from => from ∈ processed) (From <$> files).
Proof.
  rewrite report_filter. induction files as [|f files IH]; [reflexivity|].
  rewrite fmap_cons, !filter_cons.
  destruct (decide (From f ∈ processed)); [rewrite fmap_cons|]; now rewrite IH.
Qed.

(** X9.  The destination label [To] of a target has no influence: two
    target lists with the same [From] paths in the same order lead to the
    same error, the same archive, accesses and final state, and to
    result lists with the same [From] paths. *)
Theorem destination_label_is_ignored :
  forall img files files' dest env,
    From <$> files = From <$> files' ->
    ret_err (Extract img {| Files := files |} dest env)
    = ret_err (Extract img {| Files := files' |} dest env) /\
    final (Extract img {| Files := files |} dest env)
    = final (Extract img {| Files := files' |} dest env) /\
    From <$> ret_files (Extract img {| Files := files |} dest env)
    = From <$> ret_files (Extract img {| Files := files' |} dest env).
Proof.
  intros img files files' dest env Heq. unfold Extract.
  destruct (Layers img) as [layers|e]; [|auto].
  destruct (os_Create env dest) as [e|]; [auto|].
  simpl Files. rewrite (walk_layers_From files files' _ _ _ Heq).
  destruct (walk_layers _ _ _ _) as [st [e|]]; simpl; [auto|].
  split; [reflexivity|]. split; [reflexivity|].
  now rewrite !report_From, Heq.
Qed.

Lemma destination_label_is_ignored_witness :
  final (Extract oc_image {| Files := [{| From := "/usr/bin/oc"; To := "oc" |}] |}
                 "plugins.tar.gz" sound_env)
  = final (Extract oc_image
                   {| Files := [{| From := "/usr/bin/oc"; To := "kubectl" |}] |}
                   "plugins.tar.gz" sound_env).
Proof.
  apply (destination_label_is_ignored oc_image
           [{| From := "/usr/bin/oc"; To := "oc" |}]
           [{| From := "/usr/bin/oc"; To := "kubectl" |}]
           "plugins.tar.gz" sound_env).
  reflexivity.
Defined.

(** ** The test of line 127 *)

(** X10.  The name of a header after line 124 is never empty, so the
    test of line 127 never passes over an entry. *)
Theorem cleaned_name_test_never_skips :
  forall hdr : tar.Header,
    (String.length (tar.Name (cleaned hdr)) =? 0)%nat = false.
Proof.
  intros hdr. apply Nat.eqb_neq. simpl. apply Clean_nonempty.
Qed.

(** ** The reporter on growing resolved sets *)

(** X11.  The reporter keeps what it has reported: applied to its own
    result it returns it unchanged, and with a larger resolved set the
    earlier result is a sub-sequence of the later one; with nothing
    resolved the result is empty, and with every path resolved it is the
    caller's list. *)
Theorem report_idempotent_and_monotone :
  (forall files processed,
      report (report files processed) processed = report files processed) /\
  (forall files (processed processed' : gset string),
      processed ⊆ processed' ->
      sublist (report files processed) (report files processed')) /\
  (forall files, report files ∅ = []) /\
  (forall files (processed : gset string),
      (forall f, f ∈ files -> From f ∈ processed) ->
      report files processed = files).
Proof.
  split; [|split; [|split]].
  - intros files processed. rewrite !report_filter.
    apply list_filter_filter_l. auto.
  - intros files processed processed' Hsub. rewrite !report_filter.
    rewrite <- (list_filter_filter_l (fun f => From f ∈ processed)
                  (fun f => From f ∈ processed') files) by (intros f; apply Hsub).
    apply sublist_filter.
  - intros files. rewrite report_filter.
    induction files as [|f files IH]; [reflexivity|].
    rewrite filter_cons, decide_False by apply not_elem_of_empty. exact IH.
  - intros files processed Hall. rewrite report_filter.
    induction files as [|f files IH]; [reflexivity|].
    rewrite filter_cons, decide_True by apply Hall, list_elem_of_here.
    f_equal. apply IH. intros f' Hf'. apply Hall. now apply list_elem_of_further.
Qed.

Lemma report_idempotent_and_monotone_witness :
  sublist (report (Files scenario_platform) {["/usr/bin/foo"]})
          (report (Files scenario_platform) {["/usr/bin/foo"; "/usr/bin/bar"]}).
Proof.
  apply (proj1 (proj2 report_idempotent_and_monotone)).
  apply union_subseteq_l.
Defined.

(** ** Layers below the point where the counter fills *)

Lemma same_but_trace_log ev ev' st st' :
  same_but_trace st st' -> same_but_trace (log ev st) (log ev' st').
Proof. intros H. exact H. Qed.

Lemma scan_targets_same targets hdr unread st st' :
  same_but_trace st st' ->
  same_but_trace (scan_targets targets hdr unread st)
                 (scan_targets targets hdr unread st').
Proof.
  revert unread st st'.
  induction targets as [|t targets IH]; intros unread st st' Hsame;
    [exact Hsame|].
  simpl. destruct (String.eqb _ _); [|now apply IH].
  destruct Hsame as (Hp & Hw & Hf). simpl. rewrite Hw.
  destruct (tar.WriteHeader (tw st') hdr) as [w1 [|]].
  - destruct (tar.Copy w1 unread) as [[w2 unread'] [|]].
    + repeat split; simpl; congruence.
    + apply IH. repeat split; simpl; congruence.
  - apply IH. repeat split; simpl; congruence.
Qed.

Lemma read_entries_same files i j es trailer st st' :
  same_but_trace st st' ->
  same_but_trace (read_entries files i es trailer st).1
                 (read_entries files j es trailer st').1 /\
  ((read_entries files i es trailer st).2 = None <->
   (read_entries files j es trailer st').2 = None).
Proof.
  revert st st'. induction es as [|en es IH]; intros st st' Hsame.
  - simpl. destruct trailer; simpl; split; try exact Hsame; tauto.
  - simpl. destruct (Ascii.eqb _ _); [now apply IH|].
    destruct (Z.eqb _ _); [now apply IH|].
    destruct (Nat.eqb _ 0); [now apply IH|].
    pose proof Hsame as (Hp & _ & _). rewrite <- Hp.
    destruct (decide _); [now apply IH|].
    pose proof (scan_targets_same files
                  (tar.set_Name (tar.header en)
                     (filepath.Clean (tar.Name (tar.header en))))
                  (tar.content en) st st' Hsame) as Hscan.
    pose proof Hscan as (_ & _ & Hf). rewrite <- Hf.
    destruct (Nat.eqb _ _); [simpl; split; [exact Hscan | tauto]|].
    now apply IH.
Qed.

Lemma walk_layers_lower_irrelevant files lower upper k st st' b :
  same_but_trace st st' ->
  walk_layers files upper k st' = (b, None) ->
  foundLen b = List.length files ->
  exists a,
    walk_layers files (lower ++ upper) (List.length lower + k) st = (a, None) /\
    same_but_trace a b.
Proof.
  revert st st'. induction k as [|k IH]; intros st st' Hsame Hw Hfull.
  - simpl in Hw. injection Hw as <-. exists st. split; [|exact Hsame].
    apply walk_layers_done. destruct Hsame as (_ & _ & ->). exact Hfull.
  - rewrite Nat.add_succ_r. simpl in Hw |- *.
    pose proof Hsame as (_ & _ & Hf). rewrite Hf.
    destruct (Nat.eqb_spec (foundLen st') (List.length files)) as [Heq|Hne].
    { injection Hw as <-. exists st. split; [reflexivity | exact Hsame]. }
    rewrite lookup_app_r by lia.
    replace (List.length lower + k - List.length lower)%nat with k by lia.
    destruct (upper !! k) as [layer|]; [|injection Hw as <-; contradiction].
    destruct (Uncompressed layer) as [stream|e0]; [|discriminate].
    pose proof (read_entries_same files (List.length lower + k) k
                  (entries stream) (trailer stream)
                  (log (EvOpen (List.length lower + k)) st)
                  (log (EvOpen k) st')
                  (same_but_trace_log _ _ _ _ Hsame)) as [Hsame1 Herr].
    destruct (read_entries files k _ _ _) as [st1' [e1|]]; [discriminate|].
    destruct (read_entries files (List.length lower + k) _ _ _) as [st1 e1].
    simpl in Hsame1, Herr. rewrite (proj2 Herr eq_refl).
    eapply IH; [|exact Hw | exact Hfull].
    now apply same_but_trace_log.
Qed.

(** X12.  Layers below the point where the counter fills have no
    influence: when the run on an image ends without error with a full
    counter, the run on that image with any layers put underneath
    returns the same list and no error, and leaves the same archive,
    whether or not those layers can be opened or decoded. *)
Theorem layers_below_full_counter_are_irrelevant :
  forall lower upper platform dest env st,
    final (Extract {| Layers := Ok upper |} platform dest env) = Some st ->
    ret_err (Extract {| Layers := Ok upper |} platform dest env) = None ->
    foundLen st = List.length (Files platform) ->
    ret_err (Extract {| Layers := Ok (lower ++ upper)%list |} platform dest env)
    = None /\
    ret_files (Extract {| Layers := Ok (lower ++ upper)%list |} platform dest env)
    = ret_files (Extract {| Layers := Ok upper |} platform dest env) /\
    written (Extract {| Layers := Ok (lower ++ upper)%list |} platform dest env)
    = written (Extract {| Layers := Ok upper |} platform dest env).
Proof.
  intros lower upper platform dest env st. unfold Extract, written. simpl Layers.
  destruct (os_Create env dest) as [e|]; [discriminate|].
  destruct (walk_layers (Files platform) upper _ _) as [b [e|]] eqn:Hw;
    simpl; [discriminate|].
  intros [= ->] _ Hfull.
  destruct (walk_layers_lower_irrelevant (Files platform) lower upper
              (List.length upper) (init env) (init env) st
              (conj eq_refl (conj eq_refl eq_refl)) Hw Hfull)
    as (a & Ha & Hp & Htw & _).
  rewrite length_app, Ha. simpl. rewrite Hp, Htw. auto.
Qed.

Lemma layers_below_full_counter_are_irrelevant_witness :
  ret_files (Extract {| Layers := Ok ([corrupt_layer; corrupt_layer]
                                        ++ [layer_of [regular "usr/bin/oc" "oc"]])%list |}
                     {| Files := [wanted "/usr/bin/oc"] |}
                     "plugins.tar.gz" sound_env)
  = ret_files (Extract oc_image {| Files := [wanted "/usr/bin/oc"] |}
                       "plugins.tar.gz" sound_env).
Proof.
  eapply (layers_below_full_counter_are_irrelevant
            [corrupt_layer; corrupt_layer]
            [layer_of [regular "usr/bin/oc" "oc"]]
            {| Files := [wanted "/usr/bin/oc"] |} "plugins.tar.gz" sound_env).
  - reflexivity.
  - reflexivity.
  - reflexivity.
Defined.

(** ** Targets declared with a leading separator *)

Lemma rooted_TrimPrefix s :
  is_rooted s = true -> s = String "/" (strings.TrimPrefix s "/").
Proof.
  destruct s as [|c s]; [discriminate|]. simpl.
  intros Hc. apply Ascii.eqb_eq in Hc. subst c. now rewrite TrimPrefix_slash.
Qed.

Lemma is_extractable_spec hdr : is_extractable hdr = true <-> extractable hdr.
Proof.
  unfold is_extractable, extractable.
  destruct (Ascii.eqb_spec (tar.Typeflag hdr) tar.TypeDir);
    destruct (Z.eqb_spec (tar.Size hdr) 0); simpl; split;
    try discriminate; try tauto; intros [? ?]; contradiction.
Qed.

(** X13.  When every target is declared with a leading separator, every
    path in the resolved set begins with one, so the lookup of line 132
    never finds the name of an entry that does not: no such entry is
    ever passed over as already processed. *)
Theorem rooted_targets_lookup_never_hits :
  forall img platform dest env st name,
    Forall (fun t => is_rooted (From t) = true) (Files platform) ->
    final (Extract img platform dest env) = Some st ->
    is_rooted name = false ->
    name ∉ processedTargets st.
Proof.
  intros img platform dest env st name Hrooted Hst Hname Hin.
  destruct (Extract_accounted _ _ _ _ _ Hst) as (layers & _ & _ & Hprov & _).
  destruct (Hprov name Hin) as [Hinit|(_ & t & _ & _ & Ht & _ & ->)].
  - simpl in Hinit. now apply not_elem_of_empty in Hinit.
  - rewrite Forall_forall in Hrooted. rewrite (Hrooted t Ht) in Hname.
    discriminate Hname.
Qed.

Lemma rooted_targets_lookup_never_hits_witness :
  exists st,
    final (Extract scenario_image scenario_platform "plugins.tar.gz" sound_env)
    = Some st /\ "usr/bin/foo" ∉ processedTargets st.
Proof.
  eexists. split; [reflexivity|].
  apply (rooted_targets_lookup_never_hits scenario_image scenario_platform
           "plugins.tar.gz" sound_env).
  - repeat constructor.
  - reflexivity.
  - reflexivity.
Defined.

(** With writes that succeed the scan writes the entry for the first
    target that matches, if there is one. *)
Lemma scan_targets_sound targets hdr unread st :
  Forall (fun o => o = tar.WriteOk) (tar.script (tw st)) ->
  (Forall (fun t => ~ matches hdr t) targets /\
   scan_targets targets hdr unread st = st) \/
  (exists t w',
      t ∈ targets /\ matches hdr t /\
      tar.archive w' = (tar.archive (tw st) ++ [(hdr, unread)])%list /\
      Forall (fun o => o = tar.WriteOk) (tar.script w') /\
      scan_targets targets hdr unread st
      = incr_foundLen (set_tw w' (mark (From t) st))).
Proof.
  intros Hs. induction targets as [|t targets IH].
  - left. split; [constructor | reflexivity].
  - destruct (String.eqb_spec (tar.Name hdr) (strings.TrimPrefix (From t) "/"))
      as [Hm|Hm].
    + right. rewrite scan_targets_match by exact Hm.
      destruct (write_entry_sound (tw st) hdr unread Hs)
        as (w' & -> & Harch & Hs').
      exists t, w'. split; [apply list_elem_of_here | auto].
    + rewrite scan_targets_skip by exact Hm.
      destruct IH as [[Hnone ->]|(t' & w' & Hin & Hrest)].
      * left. split; [now constructor | reflexivity].
      * right. exists t', w'. split; [now apply list_elem_of_further | exact Hrest].
Qed.

Section Conventional.

Variable files : list FileLocation.
Hypothesis files_conventional : conventional_targets files.

Lemma wanted_name_not_rooted name :
  wanted_name files name = true -> is_rooted name = false.
Proof.
  intros Hw. apply wanted_name_spec, Exists_exists in Hw as (t & Ht & ->).
  unfold conventional_targets in files_conventional.
  rewrite Forall_forall in files_conventional.
  apply (files_conventional t Ht).
Qed.

Lemma counted_resolved_not_wanted st name :
  counted files st -> name ∈ processedTargets st ->
  wanted_name files name = false.
Proof.
  intros (_ & _ & _ & Hproc) Hin. apply Hproc in Hin as (n & _ & ->).
  apply not_true_is_false. intros Hw.
  apply wanted_name_not_rooted in Hw. discriminate Hw.
Qed.

Lemma matching_cons_take en es :
  is_extractable (tar.header en)
  && wanted_name files (tar.Name (cleaned (tar.header en))) = true ->
  matching files (en :: es)
  = (cleaned (tar.header en), tar.content en) :: matching files es.
Proof. intros H. unfold matching. cbn [List.filter]. now rewrite H. Qed.

Lemma matching_cons_drop en es :
  is_extractable (tar.header en)
  && wanted_name files (tar.Name (cleaned (tar.header en))) = false ->
  matching files (en :: es) = matching files es.
Proof. intros H. unfold matching. cbn [List.filter]. now rewrite H. Qed.

Lemma matching_app es1 es2 :
  matching files (es1 ++ es2)
  = (matching files es1 ++ matching files es2)%list.
Proof. unfold matching. now rewrite List.filter_app, fmap_app. Qed.

Lemma read_entries_counted i es st :
  counted files st ->
  (foundLen st < List.length files)%nat ->
  exists st',
    read_entries files i es None st = (st', None) /\
    counted files st' /\
    tar.archive (tw st')
    = (tar.archive (tw st)
       ++ take (List.length files - foundLen st) (matching files es))%list.
Proof.
  revert st. induction es as [|en es IH]; intros st Hst Hlt.
  - exists st. split; [reflexivity|]. split; [exact Hst|].
    unfold matching. simpl. now rewrite take_nil, app_nil_r.
  - destruct (read_entries_cons_skipped files i en es None st)
      as [[-> Hseen]|(Hext & Hnew & ->)].
    + rewrite matching_cons_drop; [now apply IH|].
      destruct (is_extractable (tar.header en)) eqn:He; [|reflexivity].
      apply is_extractable_spec, Hseen in He. simpl.
      now apply (counted_resolved_not_wanted st).
    + pose proof Hst as (Hs & Hcount & Hle & Hproc).
      destruct (scan_targets_sound files (cleaned (tar.header en))
                  (tar.content en) st Hs)
        as [[Hnone ->]|(t & w' & Ht & Hm & Harch & Hs' & ->)].
      * destruct (Nat.eqb_spec (foundLen st) (List.length files)); [lia|].
        rewrite matching_cons_drop; [now apply IH|].
        apply andb_false_iff. right. apply not_true_is_false. intros Hw.
        apply wanted_name_spec, Exists_exists in Hw as (t & Ht & Hm).
        rewrite Forall_forall in Hnone. exact (Hnone t Ht Hm).
      * rewrite matching_cons_take.
        2:{ apply andb_true_iff. split; [now apply is_extractable_spec|].
            apply wanted_name_spec, Exists_exists. now exists t. }
        assert (Hst1 : counted files
                         (incr_foundLen (set_tw w' (mark (From t) st)))).
        { split; [exact Hs'|]. simpl. rewrite Harch, length_app. simpl.
          split; [lia|]. split; [lia|].
          intros p. unfold member_names. rewrite fmap_app. simpl.
          rewrite elem_of_union, elem_of_singleton, Hproc. split.
          - intros [->|(n & Hn & ->)].
            + exists (filepath.Clean (tar.Name (tar.header en))).
              split; [apply elem_of_app; right; apply list_elem_of_here|].
              unfold conventional_targets in files_conventional.
              rewrite Forall_forall in files_conventional.
              rewrite (rooted_TrimPrefix (From t))
                by apply (files_conventional t Ht).
              f_equal. symmetry. exact Hm.
            + exists n. split; [apply elem_of_app; now left | reflexivity].
          - intros (n & Hn & ->). apply elem_of_app in Hn as [Hn|Hn].
            + right. now exists n.
            + left. apply list_elem_of_singleton in Hn. subst n.
              unfold conventional_targets in files_conventional.
              rewrite Forall_forall in files_conventional.
              rewrite (rooted_TrimPrefix (From t))
                by apply (files_conventional t Ht).
              f_equal. exact Hm. }
        simpl foundLen.
        replace (List.length files - foundLen st)%nat
          with (S (List.length files - S (foundLen st))) by lia.
        destruct (Nat.eqb_spec (S (foundLen st)) (List.length files)) as [Hfull|Hne].
        -- eexists. split; [reflexivity|]. split; [exact Hst1|].
           simpl tw. rewrite Harch, <- Hfull, Nat.sub_diag. reflexivity.
        -- destruct (IH _ Hst1) as (st' & -> & Hst' & Harch'); [simpl; lia|].
           exists st'. split; [reflexivity|]. split; [exact Hst'|].
           rewrite Harch'. simpl tw. simpl foundLen.
           rewrite Harch, <- app_assoc. reflexivity.
Qed.

Lemma walk_layers_counted layers n st :
  Forall (fun layer => exists es,
              Uncompressed layer = Ok {| entries := es; trailer := None |})
         layers ->
  (n <= List.length layers)%nat ->
  counted files st ->
  exists st',
    walk_layers files layers n st = (st', None) /\
    counted files st' /\
    tar.archive (tw st')
    = (tar.archive (tw st)
       ++ take (List.length files - foundLen st)
               (matching files (walk_order (take n layers))))%list.
Proof.
  intros Hlayers. rewrite Forall_forall in Hlayers.
  revert st. induction n as [|i IH]; intros st Hn Hst.
  - exists st. split; [reflexivity|]. split; [exact Hst|].
    rewrite take_0. unfold walk_order, matching. simpl.
    now rewrite take_nil, app_nil_r.
  - simpl walk_layers. pose proof Hst as (_ & _ & Hle & _).
    destruct (Nat.eqb_spec (foundLen st) (List.length files)) as [Hfull|Hne].
    { exists st. split; [reflexivity|]. split; [exact Hst|].
      now rewrite Hfull, Nat.sub_diag, take_0, app_nil_r. }
    destruct (layers !! i) as [layer|] eqn:Hi.
    2:{ apply lookup_ge_None in Hi. lia. }
    destruct (Hlayers layer) as (es & Hu);
      [eapply list_elem_of_lookup_2; exact Hi|].
    rewrite Hu. simpl entries. simpl trailer.
    rewrite (walk_order_take_S _ _ _ Hi). unfold stream_entries.
    rewrite Hu. simpl entries.
    destruct (read_entries_counted i es (log (EvOpen i) st) Hst)
      as (st1 & -> & Hst1 & Harch1); [simpl; lia|].
    destruct (IH (log (EvClose i) st1)) as (st' & -> & Hst' & Harch);
      [lia | exact Hst1|].
    exists st'. split; [reflexivity|]. split; [exact Hst'|].
    simpl in Harch, Harch1. rewrite Harch, Harch1, <- app_assoc. f_equal.
    rewrite matching_app, take_app. f_equal. f_equal.
    destruct Hst1 as (_ & Hc1 & _). destruct Hst as (_ & Hc & _).
    rewrite Hc1, Harch1, length_app, length_take, <- Hc. lia.
Qed.

End Conventional.

Lemma filter_by_names (files : list FileLocation) (processed : gset string)
      (names : list string) :
  Forall (fun t => is_rooted (From t) = true) files ->
  (forall p, p ∈ processed <-> exists n, n ∈ names /\ p = String "/" n) ->
  filter (fun f => From f ∈ processed) files
  = filter (fun f => strings.TrimPrefix (From f) "/" ∈ names) files.
Proof.
  intros Hrooted Hproc.
  induction files as [|f fs IH]; [reflexivity|].
  apply Forall_cons in Hrooted as [Hf Hrooted].
  rewrite !filter_cons, (IH Hrooted).
  destruct (decide (From f ∈ processed)) as [Hin|Hout].
  - rewrite decide_True; [reflexivity|].
    apply Hproc in Hin as (n & Hn & Heq).
    rewrite Heq, TrimPrefix_slash. exact Hn.
  - rewrite decide_False; [reflexivity|].
    intros Hn. apply Hout, Hproc.
    exists (strings.TrimPrefix (From f) "/"). split; [exact Hn|].
    now apply rooted_TrimPrefix.
Qed.

(** X14.  When every target is declared with exactly one leading
    separator, every layer decodes to its end and every write succeeds,
    [Extract] returns no error and the archive holds, in the order of the
    walk and with duplicates, the first [len(platform.Files)] entries
    that are neither directories nor empty and whose cleaned name is a
    wanted path: a path that several layers hold is written once for
    each of them until the counter is full.  The returned list is the
    targets whose normalized path is the name of a member. *)
Theorem conventional_targets_archive_is_first_matches :
  forall img platform dest env layers,
    conventional_targets (Files platform) ->
    Layers img = Ok layers ->
    Forall (fun layer => exists es,
                Uncompressed layer = Ok {| entries := es; trailer := None |})
           layers ->
    os_Create env dest = None ->
    Forall (fun o => o = tar.WriteOk) (faults env) ->
    ret_err (Extract img platform dest env) = None /\
    written (Extract img platform dest env)
    = take (List.length (Files platform))
           (matching (Files platform) (walk_order layers)) /\
    ret_files (Extract img platform dest env)
    = filter (fun f => strings.TrimPrefix (From f) "/"
                       ∈ member_names (written (Extract img platform dest env)))
             (Files platform).
Proof.
  intros img platform dest env layers Hconv Hl Hlayers Hc Hs.
  rewrite (Extract_walk _ _ _ _ _ Hl Hc).
  destruct (walk_layers_counted (Files platform) Hconv layers
              (List.length layers) (init env) Hlayers (Nat.le_refl _))
    as (st & -> & (_ & _ & _ & Hproc) & Harch).
  { split; [exact Hs|]. split; [reflexivity|]. split; [simpl; lia|].
    intros p. simpl. split.
    - intros Hp. now apply not_elem_of_empty in Hp.
    - intros (n & Hn & _). now apply elem_of_nil in Hn. }
  rewrite firstn_all in Harch. simpl in Harch. rewrite Nat.sub_0_r in Harch.
  unfold written. simpl. split; [reflexivity|]. split; [exact Harch|].
  rewrite report_filter. apply filter_by_names; [|exact Hproc].
  eapply Forall_impl; [exact Hconv|]. now intros t [Ht _].
Qed.

Lemma conventional_targets_archive_is_first_matches_witness :
  written (Extract scenario_image scenario_platform "plugins.tar.gz" sound_env)
  = [member_of (regular "usr/bin/foo" "foo, the new");
     member_of (regular "usr/bin/foo" "older");
     member_of (regular "usr/bin/bar" "bar")].
Proof.
  refine (eq_trans
            (proj1 (proj2
               (conventional_targets_archive_is_first_matches scenario_image
                  scenario_platform "plugins.tar.gz" sound_env
                  [ layer_of [regular "usr/bin/foo" "older";
                              regular "usr/bin/bar" "bar"];
                    layer_of [directory "etc/";
                              regular "usr/bin/foo" "foo, the new";
                              regular "usr/bin/bar" ""] ]
                  _ eq_refl _ eq_refl _))) _).
  - repeat constructor.
  - repeat constructor; eexists; reflexivity.
  - constructor.
  - reflexivity.
Defined.

(** ** [filepath.Clean] on normal relative paths *)

Lemma clean_loop_copy s tail out dotdot :
  has_slash s = false ->
  filepath.clean_loop false true (s ++ tail)%string out dotdot
  = filepath.clean_loop false true tail
      (rev (list_ascii_of_string s) ++ out)%list dotdot.
Proof.
  revert out. induction s as [|c s IH]; intros out Hs; [reflexivity|].
  simpl in Hs. apply orb_false_iff in Hs as [Hc Hs].
  simpl. rewrite Hc, IH by exact Hs. now rewrite <- app_assoc.
Qed.

Lemma at_elem_end_app s tail :
  has_slash s = false -> at_boundary tail ->
  filepath.at_elem_end (s ++ tail)%string = true -> s = "".
Proof.
  intros Hs _ He. destruct s as [|c s]; [reflexivity|].
  simpl in Hs, He. apply orb_false_iff in Hs as [Hc _]. congruence.
Qed.

(** At the start of a kept element the loop takes the last case of the
    switch. *)
Lemma clean_loop_name c s tail out dotdot :
  is_name (String c s) -> at_boundary tail ->
  filepath.clean_loop false false (String c s ++ tail)%string out dotdot
  = filepath.clean_loop false true (s ++ tail)%string
      (c :: with_separator out) dotdot.
Proof.
  intros (_ & Hs & Hdot & Hdotdot) Htail.
  simpl in Hs. apply orb_false_iff in Hs as [Hc Hs].
  change (String c s ++ tail)%string with (String c (s ++ tail)%string).
  cbn [filepath.clean_loop]. rewrite Hc.
  destruct (filepath.is_dot c && filepath.at_elem_end (s ++ tail)%string)
    eqn:Hcase1.
  { apply andb_true_iff in Hcase1 as [Hd He].
    apply at_elem_end_app in He; [|assumption..]. subst s.
    apply Ascii.eqb_eq in Hd. subst c. contradiction. }
  destruct (s ++ tail)%string as [|c' r'] eqn:Hrest; [reflexivity|].
  destruct (filepath.is_dot c && filepath.is_dot c' && filepath.at_elem_end r')
    eqn:Hcase2; [|reflexivity].
  apply andb_true_iff in Hcase2 as [Hcase2 He].
  apply andb_true_iff in Hcase2 as [Hd Hd'].
  apply Ascii.eqb_eq in Hd, Hd'. subst c c'.
  destruct s as [|c0 s0].
  - simpl in Hrest. destruct Htail as [->|(r & ->)]; discriminate.
  - simpl in Hrest. injection Hrest as -> <-.
    simpl in Hs.
    apply at_elem_end_app in He; [|assumption..]. subst s0. contradiction.
Qed.

Lemma list_ascii_of_string_app s1 s2 :
  list_ascii_of_string (s1 ++ s2)%string
  = (list_ascii_of_string s1 ++ list_ascii_of_string s2)%list.
Proof. induction s1 as [|c s1 IH]; simpl; [reflexivity | now rewrite IH]. Qed.

Lemma string_append_nil_r (s : string) : (s ++ "")%string = s.
Proof.
  induction s as [|c s IH]; [reflexivity|].
  change (String c (s ++ "")%string = String c s). now f_equal.
Qed.

Lemma clean_loop_join names out dotdot :
  names <> [] -> Forall is_name names ->
  filepath.clean_loop false false (join names) out dotdot
  = (rev (list_ascii_of_string (join names)) ++ with_separator out)%list.
Proof.
  intros Hne Hnames. revert out.
  induction Hnames as [|e names He Hnames IH]; intros out; [contradiction|].
  pose proof He as (Hnonempty & Hs & _).
  destruct e as [|c s]; [contradiction|].
  simpl in Hs. apply orb_false_iff in Hs as [Hc Hs].
  destruct names as [|e' names].
  - cbn [join].
    rewrite <- (string_append_nil_r (String c s)) at 1.
    rewrite clean_loop_name; [|exact He | now left].
    rewrite clean_loop_copy by exact Hs. simpl.
    now rewrite <- app_assoc.
  - change (join (String c s :: e' :: names))
      with (String c s ++ String "/" (join (e' :: names)))%string.
    rewrite clean_loop_name; [|exact He | right; eauto].
    rewrite clean_loop_copy by exact Hs.
    cbn [filepath.clean_loop]. change (filepath.is_slash "/") with true.
    cbn iota. rewrite IH by discriminate.
    rewrite list_ascii_of_string_app. cbn [list_ascii_of_string].
    rewrite rev_app_distr. cbn [rev]. rewrite <- !app_assoc.
    f_equal. unfold with_separator at 1.
    rewrite length_app. cbn [List.length app].
    rewrite Nat.add_succ_r. reflexivity.
Qed.

Lemma join_nonempty names :
  names <> [] -> Forall is_name names ->
  exists c s, join names = String c s /\ filepath.is_slash c = false.
Proof.
  intros Hne Hnames. destruct Hnames as [|e names (He & Hs & _) _];
    [contradiction|].
  destruct e as [|c s]; [contradiction|].
  simpl in Hs. apply orb_false_iff in Hs as [Hc _].
  destruct names; simpl; eauto.
Qed.

Lemma Clean_join names :
  names <> [] -> Forall is_name names ->
  filepath.Clean (join names) = join names.
Proof.
  intros Hne Hnames.
  destruct (join_nonempty names Hne Hnames) as (c & s & Hj & Hc).
  unfold filepath.Clean. rewrite Hj, Hc, <- Hj.
  rewrite clean_loop_join by assumption. unfold with_separator. simpl.
  rewrite app_nil_r.
  destruct (rev (list_ascii_of_string (join names))) as [|a l] eqn:Hrev.
  - apply (f_equal (@List.length ascii)) in Hrev.
    rewrite length_rev, Hj in Hrev. discriminate Hrev.
  - rewrite <- Hrev, rev_involutive. apply string_of_list_ascii_of_string.
Qed.

Lemma Clean_dot_join names :
  names <> [] -> Forall is_name names ->
  filepath.Clean (String "." (String "/" (join names))) = join names.
Proof.
  intros Hne Hnames. rewrite <- (Clean_join names Hne Hnames) at 2.
  destruct (join_nonempty names Hne Hnames) as (c & s & Hj & Hc).
  unfold filepath.Clean. rewrite Hj, Hc. reflexivity.
Qed.

(** X15.  For every normal relative path (non-empty elements other than
    [.] and [..], joined by single separators), an entry named by the
    path, or by the path behind [./], matches the target declared as the
    path behind one separator. *)
Theorem normal_paths_match_rooted_targets :
  forall names typeflag size to,
    names <> [] -> Forall is_name names ->
    matches (cleaned {| tar.Typeflag := typeflag; tar.Name := join names;
                        tar.Size := size |})
            {| From := String "/" (join names); To := to |} /\
    matches (cleaned {| tar.Typeflag := typeflag;
                        tar.Name := String "." (String "/" (join names));
                        tar.Size := size |})
            {| From := String "/" (join names); To := to |}.
Proof.
  intros names typeflag size to Hne Hnames. unfold matches, cleaned.
  cbn [tar.Name tar.set_Name From].
  rewrite TrimPrefix_slash, Clean_join, Clean_dot_join by assumption.
  split; reflexivity.
Qed.

Lemma normal_paths_match_rooted_targets_witness :
  matches (cleaned {| tar.Typeflag := tar.TypeReg; tar.Name := "./usr/bin/oc";
                      tar.Size := 2 |})
          {| From := "/usr/bin/oc"; To := "oc" |}.
Proof.
  apply (normal_paths_match_rooted_targets ["usr"; "bin"; "oc"]
           tar.TypeReg 2 "oc").
  - discriminate.
  - repeat constructor; discriminate.
Defined.

(** ** The walk only adds *)

Lemma read_entries_foundLen_mono files i es trailer st st' err :
  read_entries files i es trailer st = (st', err) ->
  (foundLen st <= foundLen st')%nat.
Proof.
  revert st. induction es as [|en es IH]; intros st.
  - simpl. destruct trailer; intros [= <- <-]; simpl; lia.
  - destruct (read_entries_cons files i en es trailer st) as [->|(_ & _ & ->)];
      [apply IH|].
    pose proof (scan_targets_foundLen files (cleaned (tar.header en))
                  (tar.content en) st) as Hscan.
    destruct (Nat.eqb _ _).
    + intros [= <- <-]. lia.
    + intros Hrest. apply IH in Hrest. lia.
Qed.

Lemma walk_layers_foundLen_mono files layers n st st' err :
  walk_layers files layers n st = (st', err) ->
  (foundLen st <= foundLen st')%nat.
Proof.
  revert st. induction n as [|i IH]; intros st; simpl.
  - intros [= <- <-]. lia.
  - destruct (Nat.eqb _ _); [intros [= <- <-]; lia|].
    destruct (layers !! i) as [layer|]; [|intros [= <- <-]; lia].
    destruct (Uncompressed layer) as [stream|e0];
      [|intros [= <- <-]; simpl; lia].
    destruct (read_entries _ _ _ _ _) as [st1 [e1|]] eqn:Hr;
      apply read_entries_foundLen_mono in Hr; simpl in Hr.
    + intros [= <- <-]. lia.
    + intros Hw. apply IH in Hw. simpl in Hw. lia.
Qed.

(** X16.  The walk only adds: from any state, whatever the rest of the
    walk does and however it ends, the resolved set it ends with contains
    the one it started with, the counter has not decreased, and the
    headers of the archive and the trace of accesses are those it started
    with followed by new ones. *)
Theorem walk_only_adds :
  forall files layers n st st' err,
    walk_layers files layers n st = (st', err) ->
    processedTargets st ⊆ processedTargets st' /\
    (foundLen st <= foundLen st')%nat /\
    (exists hs, headers (tw st') = (headers (tw st) ++ hs)%list) /\
    (exists evs, trace st' = (trace st ++ evs)%list).
Proof.
  intros files layers n st st' err Hw.
  pose proof (walk_layers_foundLen_mono _ _ _ _ _ _ Hw) as Hfound.
  apply walk_layers_extends in Hw. destruct err as [e|].
  - destruct Hw as (st0 & (Hsub & (evs & Htr & _) & (hs & Hh & _)) & Hab).
    destruct Hab
      as (i & layer & _ & [(e0 & _ & -> & _)|(stream & e0 & _ & _ & -> & _)]);
      simpl; (split; [exact Hsub|]); (split; [exact Hfound|]);
      (split; [exists hs; exact Hh|]); rewrite Htr.
    + exists (evs ++ [EvOpenErr i])%list. now rewrite app_assoc.
    + exists (evs ++ [EvNextErr i; EvClose i])%list.
      now rewrite <- !app_assoc.
  - destruct Hw as (Hsub & (evs & Htr & _) & (hs & Hh & _)).
    split; [exact Hsub|]. split; [exact Hfound|].
    split; [exists hs; exact Hh | exists evs; exact Htr].
Qed.

Lemma walk_only_adds_witness :
  processedTargets (mark "/usr/bin/foo" (init sound_env))
  ⊆ processedTargets
      (walk_layers (Files scenario_platform)
                   [layer_of [regular "usr/bin/bar" "bar"]] 1
                   (mark "/usr/bin/foo" (init sound_env))).1.
Proof.
  eapply (walk_only_adds (Files scenario_platform)
            [layer_of [regular "usr/bin/bar" "bar"]] 1
            (mark "/usr/bin/foo" (init sound_env)) _
            (walk_layers (Files scenario_platform)
                         [layer_of [regular "usr/bin/bar" "bar"]] 1
                         (mark "/usr/bin/foo" (init sound_env))).2).
  apply surjective_pairing.
Defined.
